(** * FairCoin: the stake wallet and the minting engine

    A shallow embedding of the wallet ([wallet.js], in its two revisions) and
    of the miner ([miner.js]) of the FairCoin simulation, with the properties
    of eligibility, difficulty decay, fork adoption and coin selection proved
    about them.

    Conventions of the embedding:
    - a JavaScript [number] that holds a coin amount, a chain length, a
      timestamp or a difficulty is an integer ([Z]); the quotient
      [amount / 1000.0] of the coin age is a rational ([Q]), so rounding of
      IEEE doubles is left out;
    - a JavaScript string is a [string] (one character per code unit, codes
      below 256, which covers the hexadecimal and base64 digests the program
      handles);
    - an object used as a dictionary is a [gmap] of its own properties,
      keyed by strings; a read [obj[k]] that finds no own property goes on to
      [Object.prototype] ([readSlot]); the keys assigned are the digests that
      [utils.js] and [block.js] make, among which [__proto__], whose
      assignment would replace the prototype, does not occur;
    - a [throw] is the [Throw] result; the state reached before the [throw]
      is kept, as an exception does not undo assignments;
    - code of [block.js], [utils.js] and the [keypair] package is not part of
      the sources: it is taken as the fields of the class [Collaborators]. *)

From Stdlib Require Import ZArith QArith Qround Qminmax Ascii Bool Lia.
From stdpp Require Import base option list strings gmap fin_maps.

Local Open Scope Z_scope.

(** ** Results of JavaScript calls *)

(** The exceptions the two files raise, and the [TypeError] of reading a
    property of [undefined]. *)
Inductive JsError : Type :=
| InsufficientFunds (requested available : Z)
| MissingKeyError (addr : string)
| NoSpendableCoinAge
| IneligibleMinter
| MismatchingLength
| TypeError (what : string)
| CollaboratorError (what : string).

Inductive Res (A : Type) : Type :=
| Ok (a : A)
| Throw (e : JsError).

Arguments Ok {A} a.
Arguments Throw {A} e.

(** A method of an object whose fields are [S]: it returns or throws, and
    leaves the fields as they were assigned up to that point. *)
Definition M (S A : Type) : Type := S -> Res A * S.

Definition ret {S A} (a : A) : M S A := fun s => (Ok a, s).
Definition throw {S A} (e : JsError) : M S A := fun s => (Throw e, s).
Definition bind {S A B} (m : M S A) (k : A -> M S B) : M S B :=
  fun s => match m s with
           | (Ok a, s') => k a s'
           | (Throw e, s') => (Throw e, s')
           end.
Definition get {S} : M S S := fun s => (Ok s, s).
Definition modify {S} (f : S -> S) : M S unit := fun s => (Ok tt, f s).
Definition lift {S A} (r : Res A) : M S A := fun s => (r, s).

Declare Scope js_scope.
Delimit Scope js_scope with js.
Notation "'do' x <- m ; k" := (bind m (fun x => k))
  (at level 10, x name, m at level 100, k at level 200) : js_scope.
Notation "'run' m ; k" := (bind m (fun _ => k))
  (at level 10, m at level 100, k at level 200) : js_scope.

(** ** Binary projection of a digest ([miner.js], lines 238-254) *)

(** [Number.prototype.toString(2)] on a character code: the binary digits,
    most significant first, without padding; ["0"] for the code 0. *)
Fixpoint pos_toString2 (p : positive) : string :=
  match p with
  | xH => "1"
  | xO q => pos_toString2 q +:+ "0"
  | xI q => pos_toString2 q +:+ "1"
  end.

Definition toString2 (n : N) : string :=
  match n with
  | N0 => "0"
  | Npos p => pos_toString2 p
  end.

(** [string.split('').map(char => char.charCodeAt(0).toString(2)).join('')] *)
Fixpoint binaryDigits (s : string) : string :=
  match s with
  | EmptyString => EmptyString
  | String c rest => toString2 (N_of_ascii c) +:+ binaryDigits rest
  end.

(** [.slice(0, n)] from the start of a string. *)
Fixpoint slice0 (n : nat) (s : string) : string :=
  match n, s with
  | S k, String c rest => String c (slice0 k rest)
  | _, _ => EmptyString
  end.

Definition text2Binary (s : string) : string := slice0 16 (binaryDigits s).

(** The loop of [countMatchingBits]: [i] runs over [string1]; reading past
    the end of [string2] gives [undefined], which equals no character. *)
Fixpoint countLoop (string1 string2 : string) (total : Z) : Z :=
  match string1 with
  | EmptyString => total
  | String a r1 =>
      match string2 with
      | String b r2 =>
          if Ascii.eqb a b then countLoop r1 r2 (total + 1) else total
      | EmptyString => total
      end
  end.

Definition countMatchingBits (string1 string2 : string) : Res Z :=
  if Nat.eqb (String.length string1) (String.length string2)
  then Ok (countLoop string1 string2 0)
  else Throw MismatchingLength.

(** ** The data model *)

(** An unspent transaction output, as [block.utxos] holds it. *)
Record UTXO : Type := mkUTXO {
  address : string;
  amount : Z;
  chainNum : Z;
}.

(** A key pair of the [keypair] package; [private] is [null] once
    [removePrivateKeys] ran. *)
Record KeyPair : Type := mkKeyPair {
  public : string;
  private : option string;
}.

(** A coin of the wallet's queue: [{ output, txID, outputIndex }], to which
    a spend adds [pubKey] and [sig] (here [sig_]). *)
Record Coin : Type := mkCoin {
  output : UTXO;
  txID : string;
  outputIndex : Z;
  pubKey : option string;
  sig_ : option string;
}.

Record Wallet : Type := mkWallet {
  coins : list Coin;
  addresses : gmap string KeyPair;
  eligibility_address : option string;
}.

(** What the miner reads of a transaction that [spendCoinAge] returns. *)
Record Transaction : Type := mkTransaction {
  tx_id : string;
  tx_outputs : list UTXO;
}.

(** The fields of a block that the wallet and the miner read or assign. *)
Record Block : Type := mkBlock {
  prevBlockHash : string;
  chainLength : Z;
  proof : Z;
  target : Z;
  timestamp : Z;
  utxos : gmap string (list UTXO);
  transactions : list Transaction;
}.

(** A line of the miner's console output. *)
Inductive LogLine : Type :=
| LogBalance (total : Z)
| LogTargetDifficulty (difficulty : Z)
| LogEligible
| LogUnableToMint
| LogNotAllowedToMint (minter : string)
| LogRejecting
| LogCuttingOver.

(** The miner: the fields of [miner.js], the wallet it inherits from
    [client.js], the pending [setTimeout] of the eligibility retry (with the
    argument its [INIT_MINTING] message will carry), the console, and the
    identity of the object, which [this !== miner] compares. *)
Record Miner : Type := mkMiner {
  ident : nat;
  name : string;
  wallet : Wallet;
  mint_elegibility_diff_dyn : Z;
  previousBlocks : gmap string Block;
  currentBlock : Block;
  rewardAddress : option string;
  shouldStartNewBlock : bool;
  shouldMine : bool;
  mintingTimeout : option bool;
  console : list LogLine;
}.

(** The code outside the sources: [utils.js], [block.js]. *)
Class Collaborators : Type := {
  utils_calcAddress : string -> string;
  utils_sign : option string -> UTXO -> Res string;
  utils_hash : string -> string;
  Block_new : option string -> Block -> Block;
  Block_deserialize : string -> Block;
  Block_determineTargetBasedOnCoinAge : Q -> Z;
  hashVal : Block -> string;
  verifyProof : Block -> bool;
  spendCoinAge : Block -> string -> Z -> list Coin -> Res Transaction * Block;
  getAllUTXOsBelongingTo : Block -> Wallet -> list UTXO;
  getAllAgedUTXOsBelongingTo : Block -> Wallet -> list UTXO;
}.

(** ** Objects used as dictionaries *)

(** [this.addresses] and [this.previousBlocks] start as [{}], whose
    prototype is [Object.prototype]. These are the names it defines
    ([Object.getOwnPropertyNames(Object.prototype)]): each is a function, or
    for [__proto__] the prototype itself. *)
Definition objectPrototypeNames : list string :=
  [ "constructor"; "__defineGetter__"; "__defineSetter__"; "hasOwnProperty";
    "__lookupGetter__"; "__lookupSetter__"; "isPrototypeOf";
    "propertyIsEnumerable"; "toString"; "valueOf"; "__proto__";
    "toLocaleString" ].

Definition isObjectPrototypeName (k : string) : bool :=
  existsb (String.eqb k) objectPrototypeNames.

(** What [obj[k]] evaluates to: an own property, a member inherited from
    [Object.prototype], or [undefined]. An inherited member is not
    [undefined], it is truthy, and its [public] and [private] are
    [undefined]. *)
Inductive Slot (V : Type) : Type :=
| Own (v : V)
| Inherited
| Undefined.

Arguments Own {V} v.
Arguments Inherited {V}.
Arguments Undefined {V}.

Definition readSlot {V} (obj : gmap string V) (k : string) : Slot V :=
  match obj !! k with
  | Some v => Own v
  | None => if isObjectPrototypeName k then Inherited else Undefined
  end.

(** [!!obj[k]], for an object whose own properties hold objects. *)
Definition truthy {V} (s : Slot V) : bool :=
  match s with
  | Undefined => false
  | _ => true
  end.

(** Field assignments. *)
Definition set_coins (f : list Coin -> list Coin) (w : Wallet) : Wallet :=
  mkWallet (f (coins w)) (addresses w) (eligibility_address w).
Definition set_addresses (f : gmap string KeyPair -> gmap string KeyPair)
    (w : Wallet) : Wallet :=
  mkWallet (coins w) (f (addresses w)) (eligibility_address w).
Definition set_eligibility_address (a : option string) (w : Wallet) : Wallet :=
  mkWallet (coins w) (addresses w) a.
Definition set_pubKey (k : string) (c : Coin) : Coin :=
  mkCoin (output c) (txID c) (outputIndex c) (Some k) (sig_ c).
Definition unset_pubKey (c : Coin) : Coin :=
  mkCoin (output c) (txID c) (outputIndex c) None (sig_ c).
Definition set_sig (s : string) (c : Coin) : Coin :=
  mkCoin (output c) (txID c) (outputIndex c) (pubKey c) (Some s).
Definition set_proof (p : Z) (b : Block) : Block :=
  mkBlock (prevBlockHash b) (chainLength b) p (target b) (timestamp b)
    (utxos b) (transactions b).
Definition set_target (t : Z) (b : Block) : Block :=
  mkBlock (prevBlockHash b) (chainLength b) (proof b) t (timestamp b)
    (utxos b) (transactions b).

(** ** The wallet ([wallet.js]) *)

(** The methods below are those of the newer revision of the file
    (the unnamed source with [removePrivateKeys]); [addUTXO], [balance],
    [balanceOnChain], [spendUTXOs], [spendUTXOsFully], [makeAddress] and
    [hasKey] read the same in [source/wallet.js]. The methods that differ
    there are in [WalletSource]. *)
Module Wallet.

(** [{inputs, changeAmt}] of [spendUTXOs]. *)
Record Change : Type := mkChange {
  changeInputs : list Coin;
  changeAmt : Z;
}.

(** [{inputs, totalSpent}] of [spendUTXOsFully]. *)
Record Spent : Type := mkSpent {
  inputs : list Coin;
  totalSpent : Z;
}.

(** [Array.prototype.indexOf] on strings: the first index, or -1. *)
Fixpoint indexOfFrom (l : list string) (x : string) (i : Z) : Z :=
  match l with
  | [] => -1
  | y :: l' => if String.eqb y x then i else indexOfFrom l' x (i + 1)
  end.

Definition indexOf (l : list string) (x : string) : Z := indexOfFrom l x 0.

(** [Math.max(0, x)] *)
Definition max0 (x : Q) : Q := if Qle_bool 0 x then x else 0%Q.

Section Methods.
Context {collab : Collaborators}.

(** [constructor()] *)
Definition new : Wallet := mkWallet [] ∅ None.

(** [get balance()] *)
Definition balance (w : Wallet) : Z :=
  fold_left (fun acc c => acc + amount (output c)) (coins w) 0.

(** [hasKey(address)] *)
Definition hasKey (w : Wallet) (addr : string) : bool :=
  truthy (readSlot (addresses w) addr).

(** [balanceOnChain(miner)] *)
Definition balanceOnChain (w : Wallet) (miner : Miner) : Z :=
  let block := currentBlock miner in
  let chainLength := chainLength block in
  fold_left
    (fun total (entry : string * list UTXO) =>
       fold_left
         (fun total utxo =>
            if hasKey w (address utxo) && (chainNum utxo <? chainLength)
            then total + amount utxo
            else total)
         (snd entry) total)
    (map_to_list (utxos block)) 0.

(** [addUTXO(utxo, txID, outputIndex)] *)
Definition addUTXO (utxo : UTXO) (txID : string) (outputIndex : Z)
    : M Wallet unit :=
  fun w =>
    match readSlot (addresses w) (address utxo) with
    | Undefined => (Throw (MissingKeyError (address utxo)), w)
    | _ =>
        (Ok tt, set_coins (cons (mkCoin utxo txID outputIndex None None)) w)
    end.

(** The two assignments [c.pubKey = ...; c.sig = ...] on a coin of the
    queue: the result, and the coin as the assignments left it. For an
    address that is only an inherited name, [.public] and [.private] are
    [undefined]: the coin gets no public key, and [utils.sign] no key
    ([None], as for the [null] of a removed private key). *)
Definition signCoin (addrs : gmap string KeyPair) (c : Coin) : Res Coin * Coin :=
  match readSlot addrs (address (output c)) with
  | Undefined => (Throw (TypeError "addresses[c.output.address]"), c)
  | Own kp =>
      let c1 := set_pubKey (public kp) c in
      match utils_sign (private kp) (output c) with
      | Throw e => (Throw e, c1)
      | Ok s => let c2 := set_sig s c1 in (Ok c2, c2)
      end
  | Inherited =>
      let c1 := unset_pubKey c in
      match utils_sign None (output c) with
      | Throw e => (Throw e, c1)
      | Ok s => let c2 := set_sig s c1 in (Ok c2, c2)
      end
  end.

(** The [for] loop of [spendUTXOs] from index [i] on: [queue] is
    [coins.slice(i)], [amt] the amount still to cover, [needed] the array
    built so far. It returns the queue as the loop left it. *)
Fixpoint spendLoop (addrs : gmap string KeyPair) (queue : list Coin)
    (amt : Z) (needed : list Coin) : Res (list Coin * Z) * list Coin :=
  match queue with
  | [] => (Ok (needed, amt), [])
  | c :: rest =>
      if 0 <? amt then
        match signCoin addrs c with
        | (Throw e, c') => (Throw e, c' :: rest)
        | (Ok c', _) =>
            let '(r, rest') :=
              spendLoop addrs rest (amt - amount (output c')) (needed ++ [c']) in
            (r, c' :: rest')
        end
      else (Ok (needed, amt), queue)
  end.

(** [spendUTXOs(amount)] *)
Definition spendUTXOs (amt : Z) : M Wallet Change :=
  fun w =>
    if balance w <? amt then (Throw (InsufficientFunds amt (balance w)), w)
    else
      let '(r, queue) := spendLoop (addresses w) (coins w) amt [] in
      (match r with
       | Ok (needed, rest) => Ok (mkChange needed (- rest))
       | Throw e => Throw e
       end,
       set_coins (fun _ => queue) w).

(** The [for] loop of [spendUTXOsFully]. *)
Fixpoint spendFullyLoop (addrs : gmap string KeyPair)
    (validAddresses : list string) (queue : list Coin)
    (amt : Z) (needed : list Coin) : Res (list Coin * Z) * list Coin :=
  match queue with
  | [] => (Ok (needed, amt), [])
  | c :: rest =>
      if 0 <? amt then
        if -1 <? indexOf validAddresses (address (output c)) then
          match signCoin addrs c with
          | (Throw e, c') => (Throw e, c' :: rest)
          | (Ok c', _) =>
              let '(r, rest') :=
                spendFullyLoop addrs validAddresses rest
                  (amt - amount (output c')) (needed ++ [c']) in
              (r, c' :: rest')
          end
        else
          let '(r, rest') :=
            spendFullyLoop addrs validAddresses rest amt needed in
          (r, c :: rest')
      else (Ok (needed, amt), queue)
  end.

(** [spendUTXOsFully(amount, miner)] *)
Definition spendUTXOsFully (amt : Z) (miner : Miner) : M Wallet Spent :=
  fun w =>
    let expected := amt in
    if balance w <? amt then (Throw (InsufficientFunds amt (balance w)), w)
    else
      let block := currentBlock miner in
      let validUTXOs := getAllAgedUTXOsBelongingTo block w in
      let validAddresses := map address validUTXOs in
      let '(r, queue) :=
        spendFullyLoop (addresses w) validAddresses (coins w) amt [] in
      (match r with
       | Ok (needed, rest) => Ok (mkSpent needed (expected - rest))
       | Throw e => Throw e
       end,
       set_coins (fun _ => queue) w).

(** [makeAddress()]; [kp] is the pair that [keypair()] generates. *)
Definition makeAddress (kp : KeyPair) : M Wallet string :=
  fun w =>
    let addr := utils_calcAddress (public kp) in
    (Ok addr, set_addresses (insert addr kp) w).

(** [getEligibilityAddress()] *)
Definition getEligibilityAddress (w : Wallet) : option string :=
  eligibility_address w.

(** [saveEligibilityProof(block)] *)
Definition saveEligibilityProof (block : Block) : M Wallet unit :=
  fun w =>
    let utxos := getAllUTXOsBelongingTo block w in
    let total_add :=
      fold_left (fun acc utxo => acc +:+ address utxo) utxos "" in
    let total_add := if String.eqb total_add "" then "12345" else total_add in
    (Ok tt, set_eligibility_address (Some (utils_hash total_add)) w).

(** [coinAgeOf(utxo, block)] *)
Definition coinAgeOf (utxo : UTXO) (block : Block) : Q :=
  max0 (inject_Z (amount utxo) / 1000
        * inject_Z (chainLength block - chainNum utxo - 2))%Q.

(** [getCoinAgeOfWalletOnChain(block)] *)
Definition getCoinAgeOfWalletOnChain (w : Wallet) (block : Block) : Z :=
  let utxos := getAllAgedUTXOsBelongingTo block w in
  let total :=
    fold_left (fun total utxo => (total + coinAgeOf utxo block)%Q) utxos 0%Q in
  Z.min 4 (Qfloor total).

(** [removePrivateKeys()] *)
Definition removePrivateKeys : M Wallet unit :=
  fun w =>
    (Ok tt, set_addresses (fmap (fun kp => mkKeyPair (public kp) None)) w).

End Methods.
End Wallet.

(** The methods of [source/wallet.js] that differ from the above. *)
Module WalletSource.
Section Methods.
Context {collab : Collaborators}.

(** [saveEligibilityProof(block)]: the concatenation itself, not its hash. *)
Definition saveEligibilityProof (block : Block) : M Wallet unit :=
  fun w =>
    let utxos := getAllUTXOsBelongingTo block w in
    let total_add :=
      fold_left (fun acc utxo => acc +:+ address utxo) utxos "" in
    let total_add := if String.eqb total_add "" then "12345" else total_add in
    (Ok tt, set_eligibility_address (Some total_add) w).

(** [coinAgeOf(utxo, block)] *)
Definition coinAgeOf (utxo : UTXO) (block : Block) : Q :=
  (inject_Z (amount utxo) / 1000
   * inject_Z (chainLength block - chainNum utxo - 1))%Q.

(** [getCoinAgeOfWalletOnChain(miner)] *)
Definition getCoinAgeOfWalletOnChain (w : Wallet) (miner : Miner) : Q :=
  let block := currentBlock miner in
  let utxos := getAllAgedUTXOsBelongingTo block w in
  fold_left (fun total utxo => (total + coinAgeOf utxo block)%Q) utxos 0%Q.

End Methods.
End WalletSource.

(** ** The miner ([miner.js]) *)

Module Miner.

Definition NUM_ROUNDS_MINING : Z := 2000.
Definition TIME_UNTIL_ELIGIBILITY_DECREASE : Z := 30000.
Definition MINT_ELEGIBILITY_DIFFICULTY : Z := 3.

(** Assignments to the fields of [this]. *)
Definition set_wallet (w : Wallet) (m : Miner) : Miner :=
  mkMiner (ident m) (name m) w (mint_elegibility_diff_dyn m)
    (previousBlocks m) (currentBlock m) (rewardAddress m)
    (shouldStartNewBlock m) (shouldMine m) (mintingTimeout m) (console m).
Definition set_mint_elegibility_diff_dyn (d : Z) (m : Miner) : Miner :=
  mkMiner (ident m) (name m) (wallet m) d
    (previousBlocks m) (currentBlock m) (rewardAddress m)
    (shouldStartNewBlock m) (shouldMine m) (mintingTimeout m) (console m).
Definition set_previousBlocks (p : gmap string Block) (m : Miner) : Miner :=
  mkMiner (ident m) (name m) (wallet m) (mint_elegibility_diff_dyn m)
    p (currentBlock m) (rewardAddress m)
    (shouldStartNewBlock m) (shouldMine m) (mintingTimeout m) (console m).
Definition set_currentBlock (b : Block) (m : Miner) : Miner :=
  mkMiner (ident m) (name m) (wallet m) (mint_elegibility_diff_dyn m)
    (previousBlocks m) b (rewardAddress m)
    (shouldStartNewBlock m) (shouldMine m) (mintingTimeout m) (console m).
Definition set_rewardAddress (a : option string) (m : Miner) : Miner :=
  mkMiner (ident m) (name m) (wallet m) (mint_elegibility_diff_dyn m)
    (previousBlocks m) (currentBlock m) a
    (shouldStartNewBlock m) (shouldMine m) (mintingTimeout m) (console m).
Definition set_shouldStartNewBlock (f : bool) (m : Miner) : Miner :=
  mkMiner (ident m) (name m) (wallet m) (mint_elegibility_diff_dyn m)
    (previousBlocks m) (currentBlock m) (rewardAddress m)
    f (shouldMine m) (mintingTimeout m) (console m).
Definition set_shouldMine (f : bool) (m : Miner) : Miner :=
  mkMiner (ident m) (name m) (wallet m) (mint_elegibility_diff_dyn m)
    (previousBlocks m) (currentBlock m) (rewardAddress m)
    (shouldStartNewBlock m) f (mintingTimeout m) (console m).
Definition set_mintingTimeout (t : option bool) (m : Miner) : Miner :=
  mkMiner (ident m) (name m) (wallet m) (mint_elegibility_diff_dyn m)
    (previousBlocks m) (currentBlock m) (rewardAddress m)
    (shouldStartNewBlock m) (shouldMine m) t (console m).
Definition set_console (c : list LogLine) (m : Miner) : Miner :=
  mkMiner (ident m) (name m) (wallet m) (mint_elegibility_diff_dyn m)
    (previousBlocks m) (currentBlock m) (rewardAddress m)
    (shouldStartNewBlock m) (shouldMine m) (mintingTimeout m) c.

(** [this.log(msg)] *)
Definition log (l : LogLine) : M Miner unit :=
  modify (fun m => set_console (console m ++ [l]) m).

(** A method of [this.wallet] called from a method of the miner. *)
Definition onWallet {A} (f : M Wallet A) : M Miner A :=
  fun m => let '(r, w) := f (wallet m) in (r, set_wallet w m).

(** [isEligibileToMint(miner, b, target)]; the fingerprint is [undefined]
    until [saveEligibilityProof] ran, and [split] of [undefined] throws. *)
Definition isEligibileToMint (miner : Miner) (b : Block) (target : Z) : Res bool :=
  let cbh := text2Binary (prevBlockHash b) in
  match Wallet.getEligibilityAddress (wallet miner) with
  | None => Throw (TypeError "string.split")
  | Some fingerprint =>
      let pkh := text2Binary fingerprint in
      match countMatchingBits cbh pkh with
      | Ok matching => Ok (target <=? matching)
      | Throw e => Throw e
      end
  end.

(** The threshold [minMintingDifficulty] of [isValidBlock], lines 163-169;
    [Math.floor] of the quotient by a positive number is [Z.div]. *)
Definition minMintingDifficulty (currentTime : Z) (b : Block) : Z :=
  let blockTimestamp := timestamp b in
  let diff := currentTime - blockTimestamp + 100 in
  MINT_ELEGIBILITY_DIFFICULTY - diff / TIME_UNTIL_ELIGIBILITY_DECREASE.

(** [this !== miner] *)
Definition isNotThis (this : Miner) (miner : option Miner) : bool :=
  match miner with
  | Some sender => negb (Nat.eqb (ident this) (ident sender))
  | None => true
  end.

Section Methods.
Context {collab : Collaborators}.

Local Open Scope js_scope.

(** [startNewSearch], lines 64-81: the candidate block is created on the
    current block. [kpReward] is the pair that [keypair()] generates in
    [makeAddress]. *)
Definition openCandidate (reuseRewardAddress : bool) (kpReward : KeyPair)
    : M Miner unit :=
  run modify (set_mint_elegibility_diff_dyn MINT_ELEGIBILITY_DIFFICULTY);
  run modify (set_mintingTimeout None);
  run (if reuseRewardAddress then ret tt
       else do addr <- onWallet (Wallet.makeAddress kpReward);
            modify (set_rewardAddress (Some addr)));
  run modify (fun m =>
        let b := Block_new (rewardAddress m) (currentBlock m) in
        set_currentBlock b
          (set_previousBlocks
             (<[prevBlockHash b := currentBlock m]> (previousBlocks m)) m));
  run modify (fun m => set_currentBlock (set_proof 0 (currentBlock m)) m);
  modify (set_shouldStartNewBlock false).

(** [startNewSearch], lines 83-94: the coin-age transaction. [kpSelf] is the
    pair that [keypair()] generates for [selfAddr]. The miner hands itself
    to [getCoinAgeOfWalletOnChain], as [source/wallet.js] expects. *)
Definition commitCoinAge (kpSelf : KeyPair) : M Miner unit :=
  do selfAddr <- onWallet (Wallet.makeAddress kpSelf);
  do m <- get;
  run log (LogBalance (Wallet.balanceOnChain (wallet m) m));
  run modify (fun m =>
        set_currentBlock
          (set_target
             (Block_determineTargetBasedOnCoinAge
                (WalletSource.getCoinAgeOfWalletOnChain (wallet m) m))
             (currentBlock m)) m);
  do m <- get;
  run log (LogTargetDifficulty
             (20 - Z.min 4
                     (Qfloor (WalletSource.getCoinAgeOfWalletOnChain (wallet m) m))));
  do m <- get;
  do spent <- onWallet
                (Wallet.spendUTXOsFully (Wallet.balanceOnChain (wallet m) m) m);
  if Wallet.totalSpent spent =? 0 then throw NoSpendableCoinAge
  else
    do coinageTX <-
      (fun m =>
         let '(r, b) :=
           spendCoinAge (currentBlock m) selfAddr (Wallet.totalSpent spent)
             (Wallet.inputs spent) in
         (r, set_currentBlock b m));
    match tx_outputs coinageTX !! 0%nat with
    | None => throw (TypeError "coinageTX.outputs[0]")
    | Some out =>
        run onWallet (Wallet.addUTXO out (tx_id coinageTX) 0);
        do m <- get;
        onWallet (WalletSource.saveEligibilityProof (currentBlock m))
    end.

(** [startNewSearch], lines 64-94: the branch of [this.shouldStartNewBlock]. *)
Definition buildCandidate (reuseRewardAddress : bool)
    (kpReward kpSelf : KeyPair) : M Miner unit :=
  run openCandidate reuseRewardAddress kpReward;
  commitCoinAge kpSelf.

(** [startNewSearch], lines 97-107: the eligibility test and the retry. *)
Definition checkEligibility (reuseRewardAddress : bool) : M Miner unit :=
  do m <- get;
  do eligible <-
    lift (isEligibileToMint m (currentBlock m) (mint_elegibility_diff_dyn m));
  if (eligible : bool) then
    run log LogEligible;
    modify (set_shouldMine true)
  else
    run modify (set_shouldMine false);
    run log LogUnableToMint;
    run modify (fun m =>
          set_mint_elegibility_diff_dyn (mint_elegibility_diff_dyn m - 1) m);
    modify (set_mintingTimeout (Some reuseRewardAddress)).

(** [startNewSearch(reuseRewardAddress=false)] *)
Definition startNewSearch (reuseRewardAddress : bool)
    (kpReward kpSelf : KeyPair) : M Miner unit :=
  do m <- get;
  run (if shouldStartNewBlock m
       then buildCandidate reuseRewardAddress kpReward kpSelf
       else ret tt);
  checkEligibility reuseRewardAddress.

(** The timer of line 106 fires: [INIT_MINTING] is emitted with the flag it
    was set with, and its listener [startNewSearch] runs. *)
Definition fireMintingTimeout (kpReward kpSelf : KeyPair) : M Miner unit :=
  do m <- get;
  match mintingTimeout m with
  | Some reuseRewardAddress =>
      run modify (set_mintingTimeout None);
      startNewSearch reuseRewardAddress kpReward kpSelf
  | None => ret tt
  end.

(** [isValidBlock(b, miner = null)]; [currentTime] is what [Date.now()]
    returns. *)
Definition isValidBlock (b : Block) (miner : option Miner) (currentTime : Z)
    : M Miner bool :=
  run match miner with
      | Some sender =>
          do eligible <-
            lift (isEligibileToMint sender b
                    (minMintingDifficulty currentTime b));
          if negb eligible then
            run log (LogNotAllowedToMint (name sender));
            throw IneligibleMinter
          else ret tt
      | None => ret tt
      end;
  if negb (verifyProof b) then ret false else ret true.

(** Lines 200-202: the block is stored under its hash unless
    [this.previousBlocks[b.hashVal()]] is truthy. *)
Definition cacheBlock (b : Block) (m : Miner) : Miner :=
  if truthy (readSlot (previousBlocks m) (hashVal b)) then m
  else set_previousBlocks (<[hashVal b := b]> (previousBlocks m)) m.

(** [receiveBlock({block: s, miner})]; the result is [false] or
    [undefined] ([None]). *)
Definition receiveBlock (s : string) (miner : option Miner) (currentTime : Z)
    (kpReward kpSelf : KeyPair) : M Miner (option bool) :=
  let b := Block_deserialize s in
  do valid <- isValidBlock b miner currentTime;
  if negb valid then
    run log LogRejecting;
    ret (Some false)
  else
    run modify (cacheBlock b);
    do m <- get;
    run (if (chainLength (currentBlock m) <=? chainLength b) && isNotThis m miner
         then
           run log LogCuttingOver;
           run modify (set_currentBlock b);
           run modify (set_shouldStartNewBlock true);
           startNewSearch true kpReward kpSelf
         else ret tt);
    ret None.

End Methods.
End Miner.

(** ** Notions the properties are stated with *)

(** [n] is the number of leading positions at which [x] and [y] hold the
    same character: they agree below [n], and at [n] the string [x] has ended
    or the two differ. *)
Definition leadingMatch (x y : string) (n : nat) : Prop :=
  (forall i, (i < n)%nat ->
     exists c, String.get i x = Some c /\ String.get i y = Some c)
  /\ (forall c, String.get n x = Some c -> String.get n y <> Some c).

(** The bit-match rule of the eligibility test: the test returns, and its
    answer is whether the leading-match count of the two projections reaches
    the threshold. *)
Definition bitMatchRule (miner : Miner) (b : Block) (target : Z) : Prop :=
  exists fingerprint n,
    eligibility_address (wallet miner) = Some fingerprint
    /\ leadingMatch (text2Binary (prevBlockHash b)) (text2Binary fingerprint) n
    /\ Miner.isEligibileToMint miner b target
       = Ok (bool_decide (target <= Z.of_nat n)).

(** What identifies a coin of the queue: [{ output, txID, outputIndex }]. *)
Definition coinId (c : Coin) : UTXO * string * Z :=
  (output c, txID c, outputIndex c).

(** The sum of the amounts of a list of coins. *)
Definition sumAmounts (l : list Coin) : Z :=
  foldr (fun c acc => amount (output c) + acc) 0 l.

(** Every coin of the queue has its address in the address map. *)
Definition coinsHaveKeys (w : Wallet) : Prop :=
  Forall (fun c => is_Some (addresses w !! address (output c))) (coins w).

(** Every coin of the queue has an address at which the address map reads
    something: a key pair of the wallet, or a member inherited from
    [Object.prototype]. *)
Definition coinsAccepted (w : Wallet) : Prop :=
  Forall (fun c => is_Some (addresses w !! address (output c))
                   \/ address (output c) ∈ objectPrototypeNames)
    (coins w).

(** The contribution of one output to the coin age, in the words of the
    specification: [max(0, amount/1000 * (chainLength - chainNum - 2))]. *)
Definition ageContribution (block : Block) (utxo : UTXO) : Q :=
  Qmax 0 ((amount utxo # 1000)
           * inject_Z (chainLength block - chainNum utxo - 2))%Q.

(** The aggregate of the contributions. *)
Definition ageAggregate (block : Block) (l : list UTXO) : Q :=
  foldr (fun utxo acc => (ageContribution block utxo + acc)%Q) 0%Q l.

Section Runs.
Context {collab : Collaborators}.

(** A call of a method that assigns to the wallet. *)
Inductive WalletCall : Type :=
| CallAddUTXO (utxo : UTXO) (txID : string) (outputIndex : Z)
| CallSpendUTXOs (amt : Z)
| CallSpendUTXOsFully (amt : Z) (miner : Miner)
| CallMakeAddress (kp : KeyPair)
| CallSaveEligibilityProof (block : Block)
| CallSaveEligibilityProofSource (block : Block)
| CallRemovePrivateKeys.

(** The wallet after a call, whether the call returned or threw. *)
Definition afterCall (c : WalletCall) (w : Wallet) : Wallet :=
  match c with
  | CallAddUTXO utxo txID outputIndex =>
      snd (Wallet.addUTXO utxo txID outputIndex w)
  | CallSpendUTXOs amt => snd (Wallet.spendUTXOs amt w)
  | CallSpendUTXOsFully amt miner => snd (Wallet.spendUTXOsFully amt miner w)
  | CallMakeAddress kp => snd (Wallet.makeAddress kp w)
  | CallSaveEligibilityProof block => snd (Wallet.saveEligibilityProof block w)
  | CallSaveEligibilityProofSource block =>
      snd (WalletSource.saveEligibilityProof block w)
  | CallRemovePrivateKeys => snd (Wallet.removePrivateKeys w)
  end.

(** The wallet after a sequence of calls on a new wallet. *)
Definition afterCalls (cs : list WalletCall) : Wallet :=
  fold_left (fun w c => afterCall c w) cs Wallet.new.

Local Open Scope js_scope.

(** The eligibility test of a proposal cycle followed by at most [n] firings
    of the retry timer; it stops at the first test that makes the miner
    eligible. *)
Fixpoint retryUpTo (n : nat) (kpReward kpSelf : KeyPair) : M Miner unit :=
  match n with
  | O => ret tt
  | S k =>
      do m <- get;
      if shouldMine m then ret tt
      else
        run Miner.fireMintingTimeout kpReward kpSelf;
        retryUpTo k kpReward kpSelf
  end.

Definition eligibilityCycle (n : nat) (reuseRewardAddress : bool)
    (kpReward kpSelf : KeyPair) : M Miner unit :=
  run Miner.checkEligibility reuseRewardAddress;
  retryUpTo n kpReward kpSelf.

End Runs.

(** The state after the eligibility test, by its answer. *)
Definition afterTest (reuseRewardAddress : bool) (eligible : bool)
    (m : Miner) : Miner :=
  if eligible then
    Miner.set_shouldMine true (Miner.set_console (console m ++ [LogEligible]) m)
  else
    Miner.set_mintingTimeout (Some reuseRewardAddress)
      (Miner.set_mint_elegibility_diff_dyn (mint_elegibility_diff_dyn m - 1)
         (Miner.set_console (console m ++ [LogUnableToMint])
            (Miner.set_shouldMine false m))).

(** The ledger view and the fingerprint the test reads. *)
Definition testInputs (m : Miner) : string * option string :=
  (prevBlockHash (currentBlock m), eligibility_address (wallet m)).

(** The state in which [receiveBlock] calls [startNewSearch(true)]: the
    received block is the current one and a new block is to be started. *)
Definition cutOver (b : Block) (m : Miner) : Miner :=
  Miner.set_shouldStartNewBlock true
    (Miner.set_currentBlock b
       (Miner.set_console (console m ++ [LogCuttingOver]) m)).

(** What the steps of a method leave of the miner: its identity, its reward
    address, the stored blocks, the flag of a new block, and the console
    lines already written. *)
Definition steady (m m' : Miner) : Prop :=
  ident m' = ident m
  /\ rewardAddress m' = rewardAddress m
  /\ previousBlocks m' = previousBlocks m
  /\ shouldStartNewBlock m' = shouldStartNewBlock m
  /\ exists rest, console m' = console m ++ rest.

(** A computation every run of which relates the state it starts from to
    the state it ends in, returning or throwing. *)
Definition preserves {A} (R : Miner -> Miner -> Prop) (c : M Miner A) : Prop :=
  forall m, R m (snd (c m)).

(** ** A sample of the collaborators *)

(** Modelled from the spec: [block.js] and [utils.js] are not among the
    sources. The sample follows section 6 of the specification and serves
    to run the methods on concrete inputs; every theorem below holds for
    all collaborators. *)
Module Sample.

Definition allUTXOs (b : Block) : list UTXO :=
  concat (map snd (map_to_list (utxos b))).

Definition owned (b : Block) (w : Wallet) : list UTXO :=
  List.filter (fun u => Wallet.hasKey w (address u)) (allUTXOs b).

Definition aged (b : Block) (w : Wallet) : list UTXO :=
  List.filter (fun u => chainNum u <? chainLength b) (owned b w).

Definition genesis : Block :=
  mkBlock "" 1 0 0 0
    {[ "tx0" := [mkUTXO "addr:tom" 50 0; mkUTXO "addr:sam" 5000 0] ]} [].

(** A block of chain length 2 whose parent has the hash ["a3f1"]. *)
Definition peerBlock : Block :=
  mkBlock "a3f1" 2 7 7 1000 (utxos genesis) [].

Definition blocks : gmap string Block :=
  {[ "genesis" := genesis; "peer" := peerBlock ]}.

#[export] Instance collaborators : Collaborators := {
  utils_calcAddress pub := "addr:" +:+ pub;
  utils_sign priv out :=
    match priv with
    | Some k => Ok ("sig:" +:+ k)
    | None => Throw (CollaboratorError "sign")
    end;
  utils_hash s := "9e" +:+ s;
  Block_new _ prev :=
    mkBlock ("#" +:+ prevBlockHash prev) (chainLength prev + 1) 0 0 0
      (utxos prev) [];
  Block_deserialize s := default genesis (blocks !! s);
  Block_determineTargetBasedOnCoinAge age := 20 - Z.min 4 (Qfloor age);
  hashVal b := "#" +:+ prevBlockHash b;
  verifyProof b := proof b =? target b;
  spendCoinAge b dest amt _ :=
    let tx := mkTransaction "coinage" [mkUTXO dest amt (chainLength b)] in
    (Ok tx,
     mkBlock (prevBlockHash b) (chainLength b) (proof b) (target b)
       (timestamp b) (<["coinage" := tx_outputs tx]> (utxos b))
       (tx :: transactions b));
  getAllUTXOsBelongingTo := owned;
  getAllAgedUTXOsBelongingTo := aged;
}.

Definition tomKeys : KeyPair := mkKeyPair "tom" (Some "tom-secret").
Definition samKeys : KeyPair := mkKeyPair "sam" (Some "sam-secret").
Definition freshKeys : KeyPair := mkKeyPair "fresh" (Some "fresh-secret").

(** Tom's wallet: the key and the coin of his genesis allocation. *)
Definition tomWallet : Wallet :=
  mkWallet [mkCoin (mkUTXO "addr:tom" 50 0) "tx0" 0 None None]
    {[ "addr:tom" := tomKeys ]} (Some "12345").

(** Sam's wallet, with the sample hash of the sentinel as fingerprint. *)
Definition samWallet : Wallet :=
  mkWallet [mkCoin (mkUTXO "addr:sam" 5000 0) "tx0" 1 None None]
    {[ "addr:sam" := samKeys ]} (Some "9e12345").

Definition candidate : Block := mkBlock "a3f1" 2 0 16 0 (utxos genesis) [].

Definition tom : Miner :=
  mkMiner 1 " Tom" tomWallet 3 ∅ candidate (Some "addr:tom") false false None [].

(** Tom's coin and wallet once a spend has signed the coin. *)
Definition tomSigned : Coin :=
  mkCoin (mkUTXO "addr:tom" 50 0) "tx0" 0 (Some "tom")
    (Some "sig:tom-secret").

Definition tomWalletSigned : Wallet :=
  mkWallet [tomSigned] {[ "addr:tom" := tomKeys ]} (Some "12345").

(** A view of the chain that lists no output of Tom's, as after a fork on
    which his output never was or is spent; his wallet still holds the
    coin. *)
Definition forkView : Block := mkBlock "a3f1" 2 0 16 0 ∅ [].

Definition tomOnFork : Miner :=
  mkMiner 1 " Tom" tomWallet 3 ∅ forkView (Some "addr:tom") false false None [].

Definition sam : Miner :=
  mkMiner 2 " Sam" samWallet 3 ∅ candidate (Some "addr:sam") false false None [].

End Sample.

(** ** Further notions *)

(** Every character of the string has a code of at least [n]. *)
Fixpoint codesAtLeast (n : N) (s : string) : bool :=
  match s with
  | EmptyString => true
  | String c rest => (n <=? N_of_ascii c)%N && codesAtLeast n rest
  end.

(** The string starts with a character whose code is not 0. *)
Definition startsNonZero (s : string) : bool :=
  match s with
  | EmptyString => false
  | String c _ => negb (N_of_ascii c =? 0)%N
  end.

(** Every block stored in [previousBlocks] of [m] is stored in that of
    [m'], under the same hash. *)
Definition keepsBlocks (m m' : Miner) : Prop :=
  forall h, is_Some (previousBlocks m !! h) ->
            is_Some (previousBlocks m' !! h).

(** What the coin-age transaction and the eligibility test of a search leave
    of the miner as the opening of the candidate set it. *)
Definition settled (m m' : Miner) : Prop :=
  rewardAddress m' = rewardAddress m
  /\ shouldStartNewBlock m' = shouldStartNewBlock m
  /\ mint_elegibility_diff_dyn m' = mint_elegibility_diff_dyn m
  /\ mintingTimeout m' = mintingTimeout m
  /\ shouldMine m' = shouldMine m.

Section Signing.
Context {collab : Collaborators}.

(** [c'] is the coin [c] after a spend gave it the public key of its address
    and the signature of its output under the private key of that address;
    or, for an address that is no key of the wallet but a name of
    [Object.prototype], no public key and the signature that [utils.sign]
    makes without a key. *)
Definition signedBy (addrs : gmap string KeyPair) (c c' : Coin) : Prop :=
  (exists kp s,
     addrs !! address (output c) = Some kp
     /\ utils_sign (private kp) (output c) = Ok s
     /\ c' = set_sig s (set_pubKey (public kp) c))
  \/ (addrs !! address (output c) = None
      /\ (address (output c) ∈ objectPrototypeNames)
      /\ exists s,
           utils_sign None (output c) = Ok s
           /\ c' = set_sig s (unset_pubKey c)).

(** Every coin of the queue can be signed: its address has a key pair, and
    [utils.sign] returns on its output. *)
Definition signable (w : Wallet) : Prop :=
  Forall (fun c => exists kp s,
            addresses w !! address (output c) = Some kp
            /\ utils_sign (private kp) (output c) = Ok s)
    (coins w).

End Signing.

(** The test [validAddresses.indexOf(c.output.address) > -1]. *)
Definition hasValidAddress (validAddresses : list string) (c : Coin) : bool :=
  -1 <? Wallet.indexOf validAddresses (address (output c)).

(** The addresses of a list of outputs, one after the other. *)
Definition joinAddresses (l : list UTXO) : string :=
  foldr (fun utxo acc => address utxo +:+ acc) "" l.

(** The string that [saveEligibilityProof] hashes (or, in
    [source/wallet.js], stores): the joined addresses, or the sentinel
    when there is none. *)
Definition fingerprintText (l : list UTXO) : string :=
  if String.eqb (joinAddresses l) "" then "12345" else joinAddresses l.

(** The contribution of one output to the coin age of [source/wallet.js]:
    [amount/1000 * (chainLength - chainNum - 1)]. *)
Definition ageContributionSource (block : Block) (utxo : UTXO) : Q :=
  ((amount utxo # 1000) * inject_Z (chainLength block - chainNum utxo - 1))%Q.

(** Further sample values: Tom about to start a new block, and the key
    pair of the address he pays his coin age to. *)
Module SampleRuns.

Definition selfKeys : KeyPair := mkKeyPair "self" (Some "self-secret").

Definition tomStarting : Miner :=
  Miner.set_shouldStartNewBlock true Sample.tom.

(** A candidate of chain length 2 that lists, besides the genesis outputs,
    an output of 7 minted in this very block (chain number 2) and paid to
    the address Tom reuses. *)
Definition candidateWithReward : Block :=
  mkBlock "a3f1" 2 0 16 0
    {[ "tx0" := [mkUTXO "addr:tom" 50 0; mkUTXO "addr:sam" 5000 0];
       "cb2" := [mkUTXO "addr:tom" 7 2] ]} [].

(** Tom's queue with the coin of that output in front of his genesis coin,
    as [addUTXO] puts the newest coin first. *)
Definition rewardCoin : Coin :=
  mkCoin (mkUTXO "addr:tom" 7 2) "cb2" 0 None None.

Definition rewardSigned : Coin :=
  mkCoin (mkUTXO "addr:tom" 7 2) "cb2" 0 (Some "tom") (Some "sig:tom-secret").

Definition tomTwoCoins : Wallet :=
  mkWallet [rewardCoin; mkCoin (mkUTXO "addr:tom" 50 0) "tx0" 0 None None]
    {[ "addr:tom" := Sample.tomKeys ]} (Some "12345").

Definition tomMinting : Miner :=
  mkMiner 1 " Tom" tomTwoCoins 3 ∅ candidateWithReward (Some "addr:tom")
    false false None [].

End SampleRuns.

(** * Properties *)

(** ** The binary projection and the bit count *)

Example text2Binary_sentinel : text2Binary "12345" = "1100011100101100".
Proof. reflexivity. Qed.

Example text2Binary_short : text2Binary "a" = "1100001".
Proof. reflexivity. Qed.

Lemma slice0_length (n : nat) (s : string) :
  String.length (slice0 n s) = Nat.min n (String.length s).
Proof.
  revert s; induction n as [|n IH]; intros [|c s]; simpl; auto.
Qed.

Lemma text2Binary_length_le (s : string) :
  (String.length (text2Binary s) <= 16)%nat.
Proof. unfold text2Binary. rewrite slice0_length. lia. Qed.

Lemma text2Binary_length_16 (s : string) :
  (16 <= String.length (binaryDigits s))%nat ->
  String.length (text2Binary s) = 16%nat.
Proof. intros Hs. unfold text2Binary. rewrite slice0_length. lia. Qed.

Lemma leadingMatch_nil_l (y : string) : leadingMatch "" y 0.
Proof.
  split.
  - intros i Hi. lia.
  - intros c Hc. discriminate Hc.
Qed.

Lemma leadingMatch_stop (a b : ascii) (x y : string) :
  a <> b -> leadingMatch (String a x) (String b y) 0.
Proof.
  intros Hab. split.
  - intros i Hi. lia.
  - intros c Hc Hy. simpl in Hc, Hy. congruence.
Qed.

Lemma leadingMatch_cons (a : ascii) (x y : string) (n : nat) :
  leadingMatch x y n -> leadingMatch (String a x) (String a y) (S n).
Proof.
  intros [Hlow Hat]. split.
  - intros [|i] Hi.
    + exists a. split; reflexivity.
    + simpl. apply Hlow. lia.
  - intros c Hc. simpl in *. apply Hat, Hc.
Qed.

Lemma countLoop_leadingMatch (x y : string) (total : Z) :
  exists n, leadingMatch x y n /\ countLoop x y total = total + Z.of_nat n.
Proof.
  revert y total. induction x as [|a x IH]; intros y total.
  - exists 0%nat. split; [apply leadingMatch_nil_l | simpl; lia].
  - destruct y as [|b y].
    + exists 0%nat. split; [|simpl; lia].
      split; [intros i Hi; lia | intros c _ Hy; discriminate Hy].
    + simpl. destruct (Ascii.eqb_spec a b) as [->|Hab].
      * destruct (IH y (total + 1)) as (n & Hn & Heq).
        exists (S n). split; [apply leadingMatch_cons, Hn | lia].
      * exists 0%nat. split; [apply leadingMatch_stop, Hab | lia].
Qed.

(** The leading-match count of two strings is unique. *)
Lemma leadingMatch_unique (x y : string) (n n' : nat) :
  leadingMatch x y n -> leadingMatch x y n' -> n = n'.
Proof.
  intros [Hlow Hat] [Hlow' Hat'].
  destruct (Nat.lt_trichotomy n n') as [Hlt | [Heq | Hgt]]; [|exact Heq|].
  - destruct (Hlow' n Hlt) as (c & Hx & Hy). destruct (Hat c Hx Hy).
  - destruct (Hlow n' Hgt) as (c & Hx & Hy). destruct (Hat' c Hx Hy).
Qed.

Lemma countLoop_nonneg (x y : string) (total : Z) :
  0 <= total -> 0 <= countLoop x y total.
Proof.
  intros Ht. destruct (countLoop_leadingMatch x y total) as (n & _ & ->). lia.
Qed.

Lemma countMatchingBits_nonneg (x y : string) (n : Z) :
  countMatchingBits x y = Ok n -> 0 <= n.
Proof.
  unfold countMatchingBits. destruct (Nat.eqb _ _); [|discriminate].
  intros [= <-]. apply countLoop_nonneg. lia.
Qed.

(** C1 (as amended). The projection of a string is made of its first 16
    binary digits, fewer when the character codes supply fewer. When the
    projections of the previous block's hash and of the fingerprint have the
    same length, the eligibility test follows the bit-match rule, for every
    threshold; when they differ in length the test throws. *)
Theorem isEligibileToMint_bit_match (miner : Miner) (b : Block) (target : Z)
    (fingerprint : string) :
  eligibility_address (wallet miner) = Some fingerprint ->
  let cbh := text2Binary (prevBlockHash b) in
  let pkh := text2Binary fingerprint in
  (String.length cbh <= 16)%nat /\ (String.length pkh <= 16)%nat
  /\ ((16 <= String.length (binaryDigits (prevBlockHash b)))%nat ->
      String.length cbh = 16%nat)
  /\ ((16 <= String.length (binaryDigits fingerprint))%nat ->
      String.length pkh = 16%nat)
  /\ (String.length cbh = String.length pkh -> bitMatchRule miner b target)
  /\ (String.length cbh <> String.length pkh ->
      Miner.isEligibileToMint miner b target = Throw MismatchingLength).
Proof.
  intros Hfp cbh pkh.
  split; [apply text2Binary_length_le|].
  split; [apply text2Binary_length_le|].
  split; [apply text2Binary_length_16|].
  split; [apply text2Binary_length_16|].
  unfold bitMatchRule, Miner.isEligibileToMint, Wallet.getEligibilityAddress.
  rewrite Hfp. fold cbh pkh. unfold countMatchingBits. split.
  - intros Hlen. apply Nat.eqb_eq in Hlen. rewrite Hlen.
    destruct (countLoop_leadingMatch cbh pkh 0) as (n & Hn & Hcount).
    exists fingerprint, n. split; [reflexivity|]. split; [exact Hn|].
    rewrite Hcount. f_equal.
    destruct (Z.leb_spec target (0 + Z.of_nat n));
      [rewrite bool_decide_eq_true_2 | rewrite bool_decide_eq_false_2];
      auto; lia.
  - intros Hlen. apply Nat.eqb_neq in Hlen. rewrite Hlen. reflexivity.
Qed.

Lemma isEligibileToMint_bit_match_witness :
  bitMatchRule Sample.tom Sample.candidate 3.
Proof.
  refine (proj1 (proj2 (proj2 (proj2 (proj2
    (isEligibileToMint_bit_match Sample.tom Sample.candidate 3 "12345"
       eq_refl))))) _).
  reflexivity.
Defined.

(** C1 as stated fails: the hash ["a"] projects to 7 binary digits, the
    sentinel ["12345"] to 16; the two agree on their first 5 digits, which
    reaches the threshold 0, and yet the test does not answer. *)
Lemma isEligibileToMint_short_hash :
  String.length (text2Binary "a") = 7%nat
  /\ leadingMatch (text2Binary "a") (text2Binary "12345") 5
  /\ ~ bitMatchRule Sample.tom
         (mkBlock "a" 2 0 16 0 ∅ []) 0.
Proof.
  split; [reflexivity|]. split.
  - split.
    + intros i Hi.
      do 5 (destruct i as [|i]; [eexists; split; reflexivity|]). lia.
    + intros c Hc Hy. vm_compute in Hc, Hy. congruence.
  - intros (f & n & _ & _ & Hres). vm_compute in Hres. discriminate Hres.
Qed.

(** ** Difficulty decay of the eligibility retries *)

Section Decay.
Context {collab : Collaborators}.

Lemma checkEligibility_run (reuse : bool) (m : Miner) (eligible : bool) :
  Miner.isEligibileToMint m (currentBlock m) (mint_elegibility_diff_dyn m)
    = Ok eligible ->
  Miner.checkEligibility reuse m = (Ok tt, afterTest reuse eligible m).
Proof.
  intros Htest. unfold Miner.checkEligibility, bind, get, lift.
  rewrite Htest. destruct eligible; reflexivity.
Qed.

Lemma startNewSearch_retry (reuse : bool) (kpR kpS : KeyPair) (m : Miner) :
  shouldStartNewBlock m = false ->
  Miner.startNewSearch reuse kpR kpS m = Miner.checkEligibility reuse m.
Proof.
  intros Hflag. unfold Miner.startNewSearch, bind, get. rewrite Hflag.
  reflexivity.
Qed.

Lemma isEligibileToMint_count (m : Miner) (fingerprint : string)
    (matching target : Z) :
  eligibility_address (wallet m) = Some fingerprint ->
  countMatchingBits (text2Binary (prevBlockHash (currentBlock m)))
    (text2Binary fingerprint) = Ok matching ->
  Miner.isEligibileToMint m (currentBlock m) target = Ok (target <=? matching).
Proof.
  intros Hfp Hcount.
  unfold Miner.isEligibileToMint, Wallet.getEligibilityAddress.
  rewrite Hfp, Hcount. reflexivity.
Qed.

Lemma retryUpTo_eligible (kpR kpS : KeyPair) (fingerprint : string)
    (matching : Z) (n : nat) :
  forall m : Miner,
    shouldStartNewBlock m = false ->
    eligibility_address (wallet m) = Some fingerprint ->
    countMatchingBits (text2Binary (prevBlockHash (currentBlock m)))
      (text2Binary fingerprint) = Ok matching ->
    shouldMine m = false ->
    is_Some (mintingTimeout m) ->
    Z.max 0 (mint_elegibility_diff_dyn m) < Z.of_nat n ->
    exists m' k,
      retryUpTo n kpR kpS m = (Ok tt, m')
      /\ shouldMine m' = true
      /\ (k < n)%nat
      /\ mint_elegibility_diff_dyn m' = mint_elegibility_diff_dyn m - Z.of_nat k
      /\ (0 <= mint_elegibility_diff_dyn m -> 0 <= mint_elegibility_diff_dyn m')
      /\ console m'
         = console m ++ repeat LogUnableToMint k ++ [LogEligible]
      /\ testInputs m' = testInputs m.
Proof.
  induction n as [|n IH]; intros m Hflag Hfp Hcount Hmine [reuse Htimer] Hn;
    [lia|].
  pose proof (countMatchingBits_nonneg _ _ _ Hcount) as Hpos.
  assert (Hstep : Miner.fireMintingTimeout kpR kpS m
                  = (Ok tt, afterTest reuse
                              (mint_elegibility_diff_dyn m <=? matching)
                              (Miner.set_mintingTimeout None m))).
  { unfold Miner.fireMintingTimeout, bind, get, modify. rewrite Htimer.
    rewrite startNewSearch_retry by exact Hflag.
    apply checkEligibility_run.
    apply (isEligibileToMint_count _ fingerprint); assumption. }
  cbn [retryUpTo]. unfold bind at 1, get. rewrite Hmine.
  unfold bind at 1. rewrite Hstep.
  destruct (Z.leb_spec (mint_elegibility_diff_dyn m) matching) as [Hle|Hgt].
  - exists (afterTest reuse true (Miner.set_mintingTimeout None m)), 0%nat.
    split.
    { destruct n; [reflexivity|]. cbn [retryUpTo]. reflexivity. }
    cbn. repeat split; try lia. 
  - set (m1 := afterTest reuse false (Miner.set_mintingTimeout None m)).
    destruct (IH m1) as (m' & k & Hrun & Hm' & Hk & Hd & Hz & Hlog & Hin);
      try (subst m1; cbn; eauto; fail).
    { subst m1; cbn. lia. }
    exists m', (S k). split; [exact Hrun|]. split; [exact Hm'|].
    split; [lia|]. subst m1. cbn in Hd, Hz, Hlog, Hin.
    split; [lia|]. split; [lia|]. split; [|exact Hin].
    rewrite Hlog, <- app_assoc. reflexivity.
Qed.

(** C2. For a fixed ledger view and fingerprint on which the bit count is
    defined: a retry whose test fails lowers the threshold by exactly 1 and
    leaves it at 0 or above; the bit count is never negative; and from the
    initial threshold the test followed by at most that many retries ends
    with the miner eligible, after as many failed tests as the threshold
    has dropped. *)
Theorem monotonic_eligibility (m : Miner) (reuse : bool) (kpR kpS : KeyPair)
    (fingerprint : string) (matching : Z) :
  shouldStartNewBlock m = false ->
  eligibility_address (wallet m) = Some fingerprint ->
  countMatchingBits (text2Binary (prevBlockHash (currentBlock m)))
    (text2Binary fingerprint) = Ok matching ->
  0 <= matching
  /\ (matching < mint_elegibility_diff_dyn m ->
      exists m',
        Miner.startNewSearch reuse kpR kpS m = (Ok tt, m')
        /\ shouldMine m' = false
        /\ mint_elegibility_diff_dyn m' = mint_elegibility_diff_dyn m - 1
        /\ 0 <= mint_elegibility_diff_dyn m'
        /\ mintingTimeout m' = Some reuse
        /\ testInputs m' = testInputs m)
  /\ (mint_elegibility_diff_dyn m <= matching ->
      exists m',
        Miner.startNewSearch reuse kpR kpS m = (Ok tt, m')
        /\ shouldMine m' = true
        /\ mint_elegibility_diff_dyn m' = mint_elegibility_diff_dyn m)
  /\ (mint_elegibility_diff_dyn m = Miner.MINT_ELEGIBILITY_DIFFICULTY ->
      exists m' k,
        eligibilityCycle (Z.to_nat Miner.MINT_ELEGIBILITY_DIFFICULTY)
          reuse kpR kpS m = (Ok tt, m')
        /\ shouldMine m' = true
        /\ (k <= Z.to_nat Miner.MINT_ELEGIBILITY_DIFFICULTY)%nat
        /\ mint_elegibility_diff_dyn m'
           = Miner.MINT_ELEGIBILITY_DIFFICULTY - Z.of_nat k
        /\ 0 <= mint_elegibility_diff_dyn m'
        /\ console m'
           = console m ++ repeat LogUnableToMint k ++ [LogEligible]).
Proof.
  intros Hflag Hfp Hcount.
  pose proof (countMatchingBits_nonneg _ _ _ Hcount) as Hpos.
  pose proof (isEligibileToMint_count m fingerprint matching
                (mint_elegibility_diff_dyn m) Hfp Hcount) as Htest.
  pose proof (checkEligibility_run reuse m _ Htest) as Hrun.
  split; [exact Hpos|]. split; [|split].
  - intros Hlt. rewrite startNewSearch_retry by exact Hflag.
    rewrite Hrun. apply Z.leb_gt in Hlt. rewrite Hlt.
    eexists. split; [reflexivity|]. cbn. apply Z.leb_gt in Hlt.
    repeat split; lia.
  - intros Hle. rewrite startNewSearch_retry by exact Hflag.
    rewrite Hrun. apply Z.leb_le in Hle. rewrite Hle.
    eexists. split; [reflexivity|]. cbn. split; reflexivity.
  - intros Hinit. unfold eligibilityCycle, bind at 1. rewrite Hrun.
    destruct (Z.leb_spec (mint_elegibility_diff_dyn m) matching) as [Hle|Hgt].
    + exists (afterTest reuse true m), 0%nat. cbn.
      unfold Miner.MINT_ELEGIBILITY_DIFFICULTY in *.
      repeat split; lia.
    + set (m1 := afterTest reuse false m).
      destruct (retryUpTo_eligible kpR kpS fingerprint matching
                  (Z.to_nat Miner.MINT_ELEGIBILITY_DIFFICULTY) m1)
        as (m' & k & Hrun' & Hm' & Hk & Hd & Hz & Hlog & _);
        try (subst m1; cbn; eauto; fail).
      { subst m1; cbn. rewrite Hinit. unfold Miner.MINT_ELEGIBILITY_DIFFICULTY.
        lia. }
      exists m', (S k). split; [exact Hrun'|]. split; [exact Hm'|].
      subst m1. cbn in Hd, Hz, Hlog. rewrite Hinit in Hd, Hz.
      unfold Miner.MINT_ELEGIBILITY_DIFFICULTY in *.
      split; [lia|]. split; [lia|]. split; [lia|].
      rewrite Hlog, <- app_assoc. reflexivity.
Qed.

End Decay.

Lemma monotonic_eligibility_witness :
  (exists m',
     Miner.startNewSearch (collab := Sample.collaborators)
       false Sample.tomKeys Sample.samKeys Sample.sam = (Ok tt, m')
     /\ shouldMine m' = false
     /\ mint_elegibility_diff_dyn m' = 2
     /\ 0 <= mint_elegibility_diff_dyn m'
     /\ mintingTimeout m' = Some false
     /\ testInputs m' = testInputs Sample.sam)
  /\ (exists m' k,
        eligibilityCycle (collab := Sample.collaborators)
          3 false Sample.tomKeys Sample.samKeys Sample.sam = (Ok tt, m')
        /\ shouldMine m' = true
        /\ (k <= 3)%nat
        /\ mint_elegibility_diff_dyn m' = 3 - Z.of_nat k
        /\ 0 <= mint_elegibility_diff_dyn m'
        /\ console m' = [] ++ repeat LogUnableToMint k ++ [LogEligible]).
Proof.
  pose proof (monotonic_eligibility (collab := Sample.collaborators)
                Sample.sam false Sample.tomKeys Sample.samKeys "9e12345" 2
                eq_refl eq_refl eq_refl)
    as (_ & Hfail & _ & Hcycle).
  split; [apply Hfail; reflexivity | apply Hcycle; reflexivity].
Defined.

(** ** Receiving a block *)

Section Receive.
Context {collab : Collaborators}.

Lemma steady_refl (m : Miner) : steady m m.
Proof.
  repeat split. exists []. symmetry. apply app_nil_r.
Qed.

Lemma steady_trans (m1 m2 m3 : Miner) :
  steady m1 m2 -> steady m2 m3 -> steady m1 m3.
Proof.
  intros (Hi & Hr & Hp & Hs & l & Hl) (Hi' & Hr' & Hp' & Hs' & l' & Hl').
  repeat split; try congruence.
  exists (l ++ l'). rewrite Hl', Hl, app_assoc. reflexivity.
Qed.

Lemma preserves_bind {A B} (c : M Miner A) (k : A -> M Miner B) :
  preserves steady c -> (forall a, preserves steady (k a)) ->
  preserves steady (bind c k).
Proof.
  intros Hc Hk m. unfold bind. specialize (Hc m).
  destruct (c m) as [[a|e] m1]; cbn in *; [|exact Hc].
  eapply steady_trans; [exact Hc | apply Hk].
Qed.

Lemma preserves_ret {A} (a : A) : preserves steady (ret a).
Proof. intros m. apply steady_refl. Qed.

Lemma preserves_throw {A} (e : JsError) : preserves steady (throw (A := A) e).
Proof. intros m. apply steady_refl. Qed.

Lemma preserves_get : preserves steady get.
Proof. intros m. apply steady_refl. Qed.

Lemma preserves_lift {A} (r : Res A) : preserves steady (lift r).
Proof. intros m. apply steady_refl. Qed.

Lemma preserves_modify (f : Miner -> Miner) :
  (forall m, steady m (f m)) -> preserves steady (modify f).
Proof. intros Hf m. apply Hf. Qed.

Lemma preserves_log (l : LogLine) : preserves steady (Miner.log l).
Proof.
  apply preserves_modify. intros m. repeat split. exists [l]. reflexivity.
Qed.

Lemma preserves_onWallet {A} (f : M Wallet A) :
  preserves steady (Miner.onWallet f).
Proof.
  intros m. unfold Miner.onWallet. destruct (f (wallet m)) as [r w]. cbn.
  repeat split. exists []. symmetry. apply app_nil_r.
Qed.

Lemma steady_set_currentBlock (b : Block) (m : Miner) :
  steady m (Miner.set_currentBlock b m).
Proof. repeat split. exists []. symmetry. apply app_nil_r. Qed.

Lemma preserves_commitCoinAge (kpSelf : KeyPair) :
  preserves steady (Miner.commitCoinAge kpSelf).
Proof.
  unfold Miner.commitCoinAge.
  repeat first
    [ apply preserves_bind; [|intros ?]
    | apply preserves_onWallet
    | apply preserves_get
    | apply preserves_log
    | apply preserves_throw
    | apply preserves_modify; intros ?; apply steady_set_currentBlock
    | match goal with
      | |- preserves _ (if ?c then _ else _) => destruct c
      | |- preserves _ (match ?c with _ => _ end) => destruct c
      end ].
  intros m. destruct (spendCoinAge _ _ _ _) as [r b]. cbn.
  apply steady_set_currentBlock.
Qed.

Lemma preserves_checkEligibility (reuse : bool) :
  preserves steady (Miner.checkEligibility reuse).
Proof.
  unfold Miner.checkEligibility.
  repeat first
    [ apply preserves_bind; [|intros ?]
    | apply preserves_get
    | apply preserves_lift
    | apply preserves_log
    | apply preserves_modify; intros ?; repeat split;
      exists []; symmetry; apply app_nil_r
    | match goal with
      | |- preserves _ (if ?c then _ else _) => destruct c
      end ].
Qed.

Lemma isValidBlock_cases (b : Block) (miner : option Miner) (currentTime : Z)
    (this : Miner) :
  Miner.isValidBlock b miner currentTime this =
  match miner with
  | None => (Ok (verifyProof b), this)
  | Some sender =>
      match Miner.isEligibileToMint sender b
              (Miner.minMintingDifficulty currentTime b) with
      | Ok true => (Ok (verifyProof b), this)
      | Ok false =>
          (Throw IneligibleMinter,
           Miner.set_console
             (console this ++ [LogNotAllowedToMint (name sender)]) this)
      | Throw e => (Throw e, this)
      end
  end.
Proof.
  unfold Miner.isValidBlock, bind, lift, ret, throw.
  destruct miner as [sender|].
  - destruct (Miner.isEligibileToMint _ _ _) as [[|]|e]; cbn;
      try reflexivity; destruct (verifyProof b); reflexivity.
  - cbn. destruct (verifyProof b); reflexivity.
Qed.

Lemma isValidBlock_true (b : Block) (miner : option Miner) (currentTime : Z)
    (this : Miner) :
  fst (Miner.isValidBlock b miner currentTime this) = Ok true ->
  Miner.isValidBlock b miner currentTime this = (Ok true, this).
Proof.
  rewrite isValidBlock_cases. destruct miner as [sender|]; cbn.
  - destruct (Miner.isEligibileToMint _ _ _) as [[|]|e]; cbn;
      intros Hv; try discriminate Hv. rewrite Hv. reflexivity.
  - intros Hv. rewrite Hv. reflexivity.
Qed.


(** The new search that [receiveBlock] starts on the block [b]: the
    candidate is opened on [b] with the reward address reused, and the rest
    of the search keeps what [steady] lists. *)
Lemma startNewSearch_cutOver (kpR kpS : KeyPair) (b : Block) (m : Miner) :
  let out := snd (Miner.startNewSearch true kpR kpS (cutOver b m)) in
  ident out = ident m
  /\ rewardAddress out = rewardAddress m
  /\ previousBlocks out
     = <[prevBlockHash (Block_new (rewardAddress m) b) := b]> (previousBlocks m)
  /\ shouldStartNewBlock out = false
  /\ exists rest, console out = console m ++ LogCuttingOver :: rest.
Proof.
  set (candidate := Block_new (rewardAddress m) b).
  set (opened :=
    Miner.set_shouldStartNewBlock false
      (Miner.set_currentBlock (set_proof 0 candidate)
         (Miner.set_previousBlocks
            (<[prevBlockHash candidate := b]> (previousBlocks m))
            (Miner.set_mintingTimeout None
               (Miner.set_mint_elegibility_diff_dyn
                  Miner.MINT_ELEGIBILITY_DIFFICULTY (cutOver b m)))))).
  assert (Heq : Miner.startNewSearch true kpR kpS (cutOver b m)
                = bind (Miner.commitCoinAge kpS)
                    (fun _ => Miner.checkEligibility true) opened).
  { unfold Miner.startNewSearch, Miner.buildCandidate. subst opened candidate.
    generalize (Miner.commitCoinAge kpS) (Miner.checkEligibility true).
    intros commit check.
    unfold Miner.openCandidate, bind, modify, get, ret. reflexivity. }
  intros out. subst out. rewrite Heq.
  assert (Hsteady : preserves steady
            (bind (Miner.commitCoinAge kpS)
               (fun _ => Miner.checkEligibility true))).
  { apply preserves_bind.
    - apply preserves_commitCoinAge.
    - intros _. apply preserves_checkEligibility. }
  destruct (Hsteady opened) as (Hi & Hr & Hp & Hs & rest & Hc).
  split; [exact Hi|]. split; [exact Hr|]. split; [exact Hp|].
  split; [exact Hs|]. exists rest. rewrite Hc.
  change (console opened) with (console m ++ [LogCuttingOver]).
  rewrite <- app_assoc. reflexivity.
Qed.


(** C4 (as amended). When the proof check fails, [receiveBlock] writes the
    rejection to the console and returns [false], changing nothing else.
    When validation throws, [receiveBlock] throws the same error to its
    caller, in the state validation left, and no rejection is written; that
    is the case of a sender that fails the adjusted eligibility test. *)
Theorem receiveBlock_validation_failure (this : Miner) (s : string)
    (miner : option Miner) (currentTime : Z) (kpR kpS : KeyPair) :
  let b := Block_deserialize s in
  let checked := Miner.isValidBlock b miner currentTime this in
  let out := Miner.receiveBlock s miner currentTime kpR kpS this in
  (fst checked = Ok false ->
   verifyProof b = false
   /\ out = (Ok (Some false),
             Miner.set_console (console this ++ [LogRejecting]) this))
  /\ (forall e, fst checked = Throw e -> out = (Throw e, snd checked))
  /\ (forall sender,
        miner = Some sender ->
        Miner.isEligibileToMint sender b
          (Miner.minMintingDifficulty currentTime b) = Ok false ->
        out = (Throw IneligibleMinter,
               Miner.set_console
                 (console this ++ [LogNotAllowedToMint (name sender)]) this)).
Proof.
  intros b checked out.
  assert (Hprop : forall e, fst checked = Throw e -> out = (Throw e, snd checked)).
  { intros e He. subst out. unfold Miner.receiveBlock. fold b.
    unfold bind at 1. fold checked. clearbody checked.
    destruct checked as [[v|e'] m]; cbn [fst snd] in *; [discriminate He|].
    injection He as ->. reflexivity. }
  split; [|split; [exact Hprop|]].
  - intros Hfalse. subst checked out. unfold Miner.receiveBlock. fold b.
    unfold bind at 1. rewrite isValidBlock_cases in *.
    destruct miner as [sender|]; cbn in Hfalse.
    + destruct (Miner.isEligibileToMint _ _ _) as [[|]|e]; cbn in Hfalse;
        try discriminate Hfalse.
      injection Hfalse as ->. split; reflexivity.
    + injection Hfalse as ->. split; reflexivity.
  - intros sender -> Hineligible.
    assert (Hchecked : checked
              = (Throw IneligibleMinter,
                 Miner.set_console
                   (console this ++ [LogNotAllowedToMint (name sender)]) this)).
    { subst checked. rewrite isValidBlock_cases, Hineligible. reflexivity. }
    rewrite (Hprop IneligibleMinter); rewrite Hchecked; reflexivity.
Qed.

End Receive.


(** C4 as stated fails: Sam's fingerprint agrees with the parent hash of the
    block on 2 bits only, the threshold at that time is 3, and
    [receiveBlock] throws instead of returning [false]. *)
Lemma receiveBlock_ineligible_minter_throws :
  Miner.minMintingDifficulty 1500 Sample.peerBlock = 3
  /\ Miner.receiveBlock (collab := Sample.collaborators) "peer"
       (Some Sample.sam) 1500 Sample.tomKeys Sample.freshKeys Sample.tom
     = (Throw IneligibleMinter,
        Miner.set_console [LogNotAllowedToMint " Sam"] Sample.tom)
  /\ fst (Miner.receiveBlock (collab := Sample.collaborators) "peer"
            (Some Sample.sam) 1500 Sample.tomKeys Sample.freshKeys Sample.tom)
     <> Ok (Some false).
Proof.
  split; [reflexivity|]. split; [vm_compute; reflexivity|].
  vm_compute. discriminate.
Qed.

(** ** Reads of an object used as a dictionary *)

Lemma isObjectPrototypeName_elem (k : string) :
  isObjectPrototypeName k = true <-> k ∈ objectPrototypeNames.
Proof.
  unfold isObjectPrototypeName. rewrite existsb_exists. split.
  - intros (x & Hin & Heq). apply String.eqb_eq in Heq. subst x.
    apply list_elem_of_In, Hin.
  - intros Hin. exists k. split; [apply list_elem_of_In, Hin|].
    apply String.eqb_refl.
Qed.

Lemma readSlot_own {V} (obj : gmap string V) (k : string) (v : V) :
  obj !! k = Some v -> readSlot obj k = Own v.
Proof. intros H. unfold readSlot. rewrite H. reflexivity. Qed.

Lemma readSlot_cases {V} (obj : gmap string V) (k : string) :
  (exists v, obj !! k = Some v /\ readSlot obj k = Own v)
  \/ (obj !! k = None /\ (k ∈ objectPrototypeNames)
      /\ readSlot obj k = Inherited)
  \/ (obj !! k = None /\ (k ∉ objectPrototypeNames)
      /\ readSlot obj k = Undefined).
Proof.
  unfold readSlot. destruct (obj !! k) as [v|].
  - left. exists v. split; reflexivity.
  - destruct (isObjectPrototypeName k) eqn:Hk.
    + right. left. apply isObjectPrototypeName_elem in Hk. auto.
    + right. right. split; [reflexivity|]. split; [|reflexivity].
      intros Hin. apply isObjectPrototypeName_elem in Hin. congruence.
Qed.

Lemma truthy_readSlot {V} (obj : gmap string V) (k : string) :
  truthy (readSlot obj k) = true
  <-> is_Some (obj !! k) \/ k ∈ objectPrototypeNames.
Proof.
  destruct (readSlot_cases obj k)
    as [(v & Hv & ->)|[(Hn & Hk & ->)|(Hn & Hk & ->)]]; cbn.
  - rewrite Hv. split; [intros _; left; eauto|reflexivity].
  - split; [intros _; right; exact Hk|reflexivity].
  - rewrite Hn. split; [discriminate|].
    intros [[v Hv]|Hin]; [discriminate|contradiction].
Qed.

(** A read sees the same when the own keys are the same. *)
Lemma truthy_readSlot_keys {V W} (obj : gmap string V) (obj' : gmap string W) :
  (forall k, is_Some (obj' !! k) <-> is_Some (obj !! k)) ->
  forall k, truthy (readSlot obj' k) = truthy (readSlot obj k).
Proof.
  intros Hkeys k. apply eq_true_iff_eq. rewrite !truthy_readSlot, Hkeys.
  reflexivity.
Qed.

Example hasKey_new_wallet :
  Wallet.hasKey Wallet.new "constructor" = true
  /\ Wallet.hasKey Wallet.new "__proto__" = true
  /\ Wallet.hasKey Wallet.new "addr:none" = false.
Proof. repeat split. Qed.

(** A new wallet on a block that lists an output of 9 to the address
    ["constructor"]. *)
Example balanceOnChain_new_wallet :
  Wallet.balanceOnChain Wallet.new
    (mkMiner 1 " Tom" Wallet.new 3 ∅
       (mkBlock "a3f1" 2 0 16 0 {[ "tx0" := [mkUTXO "constructor" 9 0] ]} [])
       None false false None [])
  = 9.
Proof. vm_compute. reflexivity. Qed.

(** ** The wallet: coin selection *)

Section Selection.
Context {collab : Collaborators}.

Lemma signCoin_coinId (addrs : gmap string KeyPair) (c : Coin) :
  coinId (snd (Wallet.signCoin addrs c)) = coinId c
  /\ (forall c', fst (Wallet.signCoin addrs c) = Ok c' ->
        coinId c' = coinId c /\ snd (Wallet.signCoin addrs c) = c').
Proof.
  unfold Wallet.signCoin.
  destruct (readSlot addrs (address (output c))) as [kp| |].
  - cbn. destruct (utils_sign (private kp) (output c)) as [s|e]; cbn.
    + split; [reflexivity|]. intros c' [= <-]. split; reflexivity.
    + split; [reflexivity|]. intros c' Hc. discriminate Hc.
  - cbn. destruct (utils_sign None (output c)) as [s|e]; cbn.
    + split; [reflexivity|]. intros c' [= <-]. split; reflexivity.
    + split; [reflexivity|]. intros c' Hc. discriminate Hc.
  - cbn. split; [reflexivity|]. intros c' Hc. discriminate Hc.
Qed.

Lemma signCoin_output (addrs : gmap string KeyPair) (c c' : Coin) :
  fst (Wallet.signCoin addrs c) = Ok c' -> output c' = output c.
Proof.
  intros Hc. apply (proj2 (signCoin_coinId addrs c)) in Hc as [Hid _].
  unfold coinId in Hid. congruence.
Qed.

(** The loops leave every coin of the queue in its place. *)
Lemma spendLoop_queue (addrs : gmap string KeyPair) (queue : list Coin) :
  forall amt needed,
    map coinId (snd (Wallet.spendLoop addrs queue amt needed))
    = map coinId queue.
Proof.
  induction queue as [|c rest IH]; intros amt needed; cbn; [reflexivity|].
  destruct (0 <? amt); [|reflexivity].
  pose proof (signCoin_coinId addrs c) as [Hsnd Hfst].
  destruct (Wallet.signCoin addrs c) as [[c'|e] c2]; cbn in *.
  - specialize (IH (amt - amount (output c')) (needed ++ [c'])).
    destruct (Wallet.spendLoop _ _ _ _) as [r q]. cbn in *.
    destruct (Hfst c' eq_refl) as [-> _]. rewrite IH. reflexivity.
  - rewrite Hsnd. reflexivity.
Qed.

Lemma spendFullyLoop_queue (addrs : gmap string KeyPair)
    (valid : list string) (queue : list Coin) :
  forall amt needed,
    map coinId (snd (Wallet.spendFullyLoop addrs valid queue amt needed))
    = map coinId queue.
Proof.
  induction queue as [|c rest IH]; intros amt needed; cbn; [reflexivity|].
  destruct (0 <? amt); [|reflexivity].
  destruct (-1 <? Wallet.indexOf valid (address (output c))).
  - pose proof (signCoin_coinId addrs c) as [Hsnd Hfst].
    destruct (Wallet.signCoin addrs c) as [[c'|e] c2]; cbn in *.
    + specialize (IH (amt - amount (output c')) (needed ++ [c'])).
      destruct (Wallet.spendFullyLoop _ _ _ _ _) as [r q]. cbn in *.
      destruct (Hfst c' eq_refl) as [-> _]. rewrite IH. reflexivity.
    + rewrite Hsnd. reflexivity.
  - specialize (IH amt needed).
    destruct (Wallet.spendFullyLoop _ _ _ _ _) as [r q]. cbn in *.
    rewrite IH. reflexivity.
Qed.

Lemma spendUTXOs_queue (amt : Z) (w : Wallet) :
  map coinId (coins (snd (Wallet.spendUTXOs amt w))) = map coinId (coins w)
  /\ addresses (snd (Wallet.spendUTXOs amt w)) = addresses w
  /\ eligibility_address (snd (Wallet.spendUTXOs amt w))
     = eligibility_address w.
Proof.
  unfold Wallet.spendUTXOs. destruct (Wallet.balance w <? amt).
  - repeat split.
  - pose proof (spendLoop_queue (addresses w) (coins w) amt []) as Hq.
    destruct (Wallet.spendLoop _ _ _ _) as [r q]. cbn in *.
    repeat split. exact Hq.
Qed.

Lemma spendUTXOsFully_queue (amt : Z) (miner : Miner) (w : Wallet) :
  map coinId (coins (snd (Wallet.spendUTXOsFully amt miner w)))
  = map coinId (coins w)
  /\ addresses (snd (Wallet.spendUTXOsFully amt miner w)) = addresses w
  /\ eligibility_address (snd (Wallet.spendUTXOsFully amt miner w))
     = eligibility_address w.
Proof.
  unfold Wallet.spendUTXOsFully. destruct (Wallet.balance w <? amt).
  - repeat split.
  - cbv zeta.
    pose proof (spendFullyLoop_queue (addresses w)
                  (map address
                     (getAllAgedUTXOsBelongingTo (currentBlock miner) w))
                  (coins w) amt []) as Hq.
    destruct (Wallet.spendFullyLoop _ _ _ _ _) as [r q]. cbn in *.
    repeat split. exact Hq.
Qed.

(** [indexOf] finds what the array holds. *)
Lemma indexOfFrom_elem (l : list string) (x : string) :
  forall i, 0 <= i -> (-1 < Wallet.indexOfFrom l x i <-> x ∈ l).
Proof.
  induction l as [|y l IH]; intros i Hi; cbn.
  - split; [lia | intros Hin; inversion Hin].
  - destruct (String.eqb_spec y x) as [->|Hne].
    + split; [intros _; left | lia].
    + rewrite IH by lia. split; [right; assumption|].
      intros Hin. inversion Hin; subst; [congruence | assumption].
Qed.

Lemma indexOf_elem (l : list string) (x : string) :
  -1 < Wallet.indexOf l x <-> x ∈ l.
Proof. apply indexOfFrom_elem. lia. Qed.

Lemma sumAmounts_snoc (l : list Coin) (c : Coin) :
  sumAmounts (l ++ [c]) = sumAmounts l + amount (output c).
Proof.
  unfold sumAmounts. induction l as [|d l IH]; cbn; [lia|].
  rewrite IH. lia.
Qed.

(** What the loop of [spendUTXOsFully] returns: the coins it adds to
    [needed] have one of the valid addresses, and the amount left is the
    amount asked less the amounts of the coins added. *)
Lemma spendFullyLoop_result (addrs : gmap string KeyPair)
    (valid : list string) (queue : list Coin) :
  forall amt needed needed' rest,
    fst (Wallet.spendFullyLoop addrs valid queue amt needed)
      = Ok (needed', rest) ->
    (Forall (fun c => address (output c) ∈ valid) needed ->
     Forall (fun c => address (output c) ∈ valid) needed')
    /\ rest = amt - (sumAmounts needed' - sumAmounts needed).
Proof.
  induction queue as [|c queue IH]; intros amt needed needed' rest; cbn.
  - intros [= <- <-]. split; [auto | lia].
  - destruct (0 <? amt); [|intros [= <- <-]; split; [auto | lia]].
    destruct (-1 <? Wallet.indexOf valid (address (output c))) eqn:Hidx.
    + pose proof (signCoin_output addrs c) as Hout.
      destruct (Wallet.signCoin addrs c) as [[c'|e] c2]; cbn in *;
        [|intros Hr; discriminate Hr].
      specialize (IH (amt - amount (output c')) (needed ++ [c']) needed' rest).
      destruct (Wallet.spendFullyLoop _ _ _ _ _) as [r q]. cbn in *.
      intros Hr. destruct (IH Hr) as [Hvalid Hrest]. split.
      * intros Hneeded. apply Hvalid. apply Forall_app. split; [exact Hneeded|].
        constructor; [|constructor]. rewrite (Hout c' eq_refl).
        apply indexOf_elem. apply Z.ltb_lt. exact Hidx.
      * rewrite sumAmounts_snoc in Hrest. lia.
    + specialize (IH amt needed needed' rest).
      destruct (Wallet.spendFullyLoop _ _ _ _ _) as [r q]. cbn in *.
      exact IH.
Qed.

Lemma spendUTXOsFully_result (amt : Z) (miner : Miner) (w w' : Wallet)
    (r : Wallet.Spent) :
  Wallet.spendUTXOsFully amt miner w = (Ok r, w') ->
  Wallet.balance w >= amt
  /\ Forall (fun c => address (output c)
                      ∈ map address
                          (getAllAgedUTXOsBelongingTo (currentBlock miner) w))
       (Wallet.inputs r)
  /\ Wallet.totalSpent r = sumAmounts (Wallet.inputs r).
Proof.
  unfold Wallet.spendUTXOsFully.
  destruct (Z.ltb_spec (Wallet.balance w) amt) as [Hlt|Hge];
    [intros Hr; discriminate Hr|].
  cbv zeta.
  pose proof (spendFullyLoop_result (addresses w)
                (map address
                   (getAllAgedUTXOsBelongingTo (currentBlock miner) w))
                (coins w) amt []) as Hloop.
  destruct (Wallet.spendFullyLoop _ _ _ _ _) as [[[needed rest]|e] q];
    cbn in *; intros [= <- <-].
  destruct (Hloop needed rest eq_refl) as [Hvalid Hrest].
  cbn [Wallet.inputs Wallet.totalSpent].
  split; [lia|]. split; [apply Hvalid; constructor|].
  change (sumAmounts []) with 0 in Hrest. lia.
Qed.

(** C7. Every coin among the inputs that [spendUTXOsFully] returns has the
    address of one of the aged outputs that the current block of the miner
    lists for the wallet at the time of the call. The selection compares
    addresses only: the output of the coin itself need not be among the
    aged ones. *)
Theorem spendUTXOsFully_aged_selection (amt : Z) (miner : Miner)
    (w w' : Wallet) (r : Wallet.Spent) :
  Wallet.spendUTXOsFully amt miner w = (Ok r, w') ->
  forall c, c ∈ Wallet.inputs r ->
    exists utxo,
      utxo ∈ getAllAgedUTXOsBelongingTo (currentBlock miner) w
      /\ address (output c) = address utxo.
Proof.
  intros Hr c Hc.
  destruct (spendUTXOsFully_result amt miner w w' r Hr) as (_ & Hvalid & _).
  rewrite Forall_forall in Hvalid. specialize (Hvalid c Hc).
  apply list_elem_of_fmap in Hvalid as (utxo & Haddr & Hin).
  exists utxo. split; assumption.
Qed.

(** C10. The total that [spendUTXOsFully] returns is the sum of the amounts
    of the inputs it returns; when the last input is worth more than what
    was left to cover, the total exceeds the amount asked. *)
Theorem spendUTXOsFully_totalSpent (amt : Z) (miner : Miner)
    (w w' : Wallet) (r : Wallet.Spent) :
  Wallet.spendUTXOsFully amt miner w = (Ok r, w') ->
  Wallet.totalSpent r = sumAmounts (Wallet.inputs r)
  /\ (forall init last,
        Wallet.inputs r = init ++ [last] ->
        amt - sumAmounts init < amount (output last) ->
        amt < Wallet.totalSpent r).
Proof.
  intros Hr.
  destruct (spendUTXOsFully_result amt miner w w' r Hr) as (_ & _ & Htotal).
  split; [exact Htotal|].
  intros init last Hinputs Hover.
  rewrite Htotal, Hinputs, sumAmounts_snoc. lia.
Qed.

(** The test of [spendUTXOsFully] reads the local balance. *)
Lemma spendUTXOsFully_insufficient (amt : Z) (miner : Miner) (w : Wallet) :
  Wallet.balance w < amt ->
  Wallet.spendUTXOsFully amt miner w
  = (Throw (InsufficientFunds amt (Wallet.balance w)), w).
Proof.
  intros Hlt. unfold Wallet.spendUTXOsFully.
  apply Z.ltb_lt in Hlt. rewrite Hlt. reflexivity.
Qed.

Lemma spendFullyLoop_no_valid (addrs : gmap string KeyPair)
    (queue : list Coin) :
  forall amt needed,
    Wallet.spendFullyLoop addrs [] queue amt needed
    = (Ok (needed, amt), queue).
Proof.
  induction queue as [|c queue IH]; intros amt needed; cbn; [reflexivity|].
  destruct (0 <? amt); [|reflexivity]. rewrite IH. reflexivity.
Qed.

(** The behaviour that C6 misses: a wallet whose queue still sums to the
    amount asked passes the test of [spendUTXOsFully], whatever the block
    lists; with no aged output on the block the call returns no input and a
    total of 0. *)
Lemma spendUTXOsFully_stale_balance (amt : Z) (miner : Miner) (w : Wallet) :
  amt <= Wallet.balance w ->
  getAllAgedUTXOsBelongingTo (currentBlock miner) w = [] ->
  Wallet.spendUTXOsFully amt miner w = (Ok (Wallet.mkSpent [] 0), w).
Proof.
  intros Hle Haged. unfold Wallet.spendUTXOsFully.
  destruct (Z.ltb_spec (Wallet.balance w) amt) as [Hlt|_]; [lia|].
  cbv zeta. rewrite Haged. cbn [map].
  rewrite spendFullyLoop_no_valid. destruct w. unfold set_coins. cbn.
  repeat f_equal. lia.
Qed.

End Selection.

(** ** The wallet: the queue and the address map *)

Section Queue.
Context {collab : Collaborators}.

Lemma coinsAccepted_transfer (w w' : Wallet) :
  map coinId (coins w') = map coinId (coins w) ->
  (forall a, is_Some (addresses w !! a) -> is_Some (addresses w' !! a)) ->
  coinsAccepted w -> coinsAccepted w'.
Proof.
  unfold coinsAccepted. intros Hids Hkeys.
  generalize (coins w) (coins w') Hids. clear Hids.
  induction l as [|c l IH]; intros [|c' l'] Hids Hall; cbn in *;
    try discriminate Hids; constructor.
  - inversion Hall as [|? ? Hc _]; subst.
    assert (Hout : output c' = output c)
      by (unfold coinId in Hids; congruence).
    rewrite Hout. destruct Hc as [Hc|Hc]; [left; apply Hkeys, Hc|right; exact Hc].
  - inversion Hall; subst. injection Hids as _ Hrest. apply IH; assumption.
Qed.

Lemma addUTXO_cases (utxo : UTXO) (tx : string) (index : Z) (w : Wallet) :
  (Wallet.hasKey w (address utxo) = true
   /\ Wallet.addUTXO utxo tx index w
      = (Ok tt, set_coins (cons (mkCoin utxo tx index None None)) w))
  \/ (Wallet.hasKey w (address utxo) = false
      /\ Wallet.addUTXO utxo tx index w
         = (Throw (MissingKeyError (address utxo)), w)).
Proof.
  unfold Wallet.addUTXO, Wallet.hasKey.
  destruct (readSlot (addresses w) (address utxo)); cbn; auto.
Qed.

Lemma hasKey_true (w : Wallet) (a : string) :
  Wallet.hasKey w a = true
  <-> is_Some (addresses w !! a) \/ a ∈ objectPrototypeNames.
Proof. apply truthy_readSlot. Qed.

Lemma afterCall_coinsAccepted (c : WalletCall) (w : Wallet) :
  coinsAccepted w -> coinsAccepted (afterCall c w).
Proof.
  intros Hw. destruct c as [utxo tx idx|amt|amt miner|kp|block|block|]; cbn.
  - destruct (addUTXO_cases utxo tx idx w) as [[Hkey ->]|[_ ->]]; cbn;
      [|exact Hw].
    constructor; [cbn; apply hasKey_true, Hkey | exact Hw].
  - destruct (spendUTXOs_queue amt w) as (Hids & Haddr & _).
    apply (coinsAccepted_transfer w); [exact Hids | rewrite Haddr; auto | exact Hw].
  - destruct (spendUTXOsFully_queue amt miner w) as (Hids & Haddr & _).
    apply (coinsAccepted_transfer w); [exact Hids | rewrite Haddr; auto | exact Hw].
  - apply (coinsAccepted_transfer w); [reflexivity| |exact Hw].
    intros a Ha. cbn. rewrite lookup_insert_is_Some.
    destruct (decide (utils_calcAddress (public kp) = a)); auto.
  - exact Hw.
  - exact Hw.
  - apply (coinsAccepted_transfer w); [reflexivity| |exact Hw].
    intros a [kp Ha]. cbn. rewrite lookup_fmap, Ha. cbn. eauto.
Qed.

(** C8. A new wallet has no key pair, and [addUTXO] of an output to an
    address it never made throws the missing-key error and leaves the wallet
    as it was, as it does for ["addr:none"]. For the address ["toString"] it
    does not: [this.addresses["toString"]] is the function inherited from
    [Object.prototype], not [undefined], so the call returns and the queue
    holds a coin whose address is not in the address map. *)
Theorem addUTXO_inherited_name :
  let utxo := mkUTXO "toString" 5 0 in
  let unknown := mkUTXO "addr:none" 5 0 in
  addresses Wallet.new !! address utxo = None
  /\ addresses Wallet.new !! address unknown = None
  /\ Wallet.addUTXO unknown "tx1" 0 Wallet.new
     = (Throw (MissingKeyError "addr:none"), Wallet.new)
  /\ Wallet.addUTXO utxo "tx1" 0 Wallet.new
     = (Ok tt, mkWallet [mkCoin utxo "tx1" 0 None None] ∅ None)
  /\ ~ coinsHaveKeys (snd (Wallet.addUTXO utxo "tx1" 0 Wallet.new)).
Proof.
  cbv zeta. split; [reflexivity|]. split; [reflexivity|].
  split; [reflexivity|]. split; [reflexivity|].
  unfold coinsHaveKeys. cbn. intros Hall.
  inversion Hall as [|? ? [kp Hkp] _]. discriminate Hkp.
Qed.

(** C9. A call of [spendUTXOs] or of [spendUTXOsFully] that returns leaves
    in the queue the coins it held, in their order: none is removed, none
    added, none moved. *)
Theorem spending_keeps_queue (amt : Z) (miner : Miner) (w : Wallet) :
  (forall r w', Wallet.spendUTXOs amt w = (Ok r, w') ->
     map coinId (coins w') = map coinId (coins w)
     /\ length (coins w') = length (coins w))
  /\ (forall r w', Wallet.spendUTXOsFully amt miner w = (Ok r, w') ->
        map coinId (coins w') = map coinId (coins w)
        /\ length (coins w') = length (coins w)).
Proof.
  split; intros r w' Hr.
  - destruct (spendUTXOs_queue amt w) as (Hids & _). rewrite Hr in Hids.
    split; [exact Hids|].
    apply (f_equal length) in Hids. rewrite !length_map in Hids. exact Hids.
  - destruct (spendUTXOsFully_queue amt miner w) as (Hids & _).
    rewrite Hr in Hids. split; [exact Hids|].
    apply (f_equal length) in Hids. rewrite !length_map in Hids. exact Hids.
Qed.

(** ** The coin age *)

Lemma max0_Qmax (x : Q) : (Wallet.max0 x == Qmax 0 x)%Q.
Proof.
  unfold Wallet.max0. destruct (Qle_bool 0 x) eqn:Hle.
  - apply Qle_bool_iff in Hle. symmetry. apply Q.max_r. exact Hle.
  - symmetry. apply Q.max_l. apply Qlt_le_weak, Qnot_le_lt.
    intros Hx. apply Qle_bool_iff in Hx. congruence.
Qed.

Lemma coinAgeOf_contribution (utxo : UTXO) (block : Block) :
  (Wallet.coinAgeOf utxo block == ageContribution block utxo)%Q.
Proof.
  unfold Wallet.coinAgeOf, ageContribution. rewrite max0_Qmax.
  apply Q.max_compat; [reflexivity|].
  apply Qmult_comp; [|reflexivity].
  unfold Qeq, Qdiv, Qmult, Qinv, inject_Z. cbn. lia.
Qed.

Lemma ageContribution_nonneg (block : Block) (utxo : UTXO) :
  (0 <= ageContribution block utxo)%Q.
Proof. unfold ageContribution. apply Q.le_max_l. Qed.

Lemma ageAggregate_nonneg (block : Block) (l : list UTXO) :
  (0 <= ageAggregate block l)%Q.
Proof.
  induction l as [|u l IH]; cbn; [apply Qle_refl|].
  change 0%Q with (0 + 0)%Q at 1.
  apply Qplus_le_compat; [apply ageContribution_nonneg | exact IH].
Qed.

Lemma coinAge_total (block : Block) (l : list UTXO) :
  forall total : Q,
    (fold_left (fun total utxo => total + Wallet.coinAgeOf utxo block) l total
     == total + ageAggregate block l)%Q.
Proof.
  induction l as [|u l IH]; intros total; cbn.
  - ring.
  - rewrite IH, coinAgeOf_contribution. unfold ageAggregate. ring.
Qed.

(** C5. The coin age that [getCoinAgeOfWalletOnChain] returns is the floor
    of the aggregate of the contributions
    [max(0, amount/1000 * (chainLength - chainNum - 2))] of the aged outputs,
    clamped to 4; it lies between 0 and 4 for every wallet and block. *)
Theorem getCoinAgeOfWalletOnChain_clamp (w : Wallet) (block : Block) :
  Wallet.getCoinAgeOfWalletOnChain w block
  = Z.min 4 (Qfloor (ageAggregate block (getAllAgedUTXOsBelongingTo block w)))
  /\ 0 <= Wallet.getCoinAgeOfWalletOnChain w block <= 4.
Proof.
  unfold Wallet.getCoinAgeOfWalletOnChain. cbv zeta.
  set (l := getAllAgedUTXOsBelongingTo block w).
  assert (Hfloor : Qfloor (fold_left
                     (fun total utxo => (total + Wallet.coinAgeOf utxo block)%Q)
                     l 0%Q)
                   = Qfloor (ageAggregate block l)).
  { apply Qfloor_comp. rewrite coinAge_total. ring. }
  rewrite Hfloor. split; [reflexivity|].
  pose proof (Qfloor_resp_le _ _ (ageAggregate_nonneg block l)) as Hpos.
  change (Qfloor 0) with 0 in Hpos. lia.
Qed.

End Queue.

(** ** Runs on the sample *)

Example spendUTXOs_sample :
  Wallet.spendUTXOs (collab := Sample.collaborators) 30 Sample.tomWallet
  = (Ok (Wallet.mkChange [Sample.tomSigned] 20), Sample.tomWalletSigned).
Proof. reflexivity. Qed.

Example spendUTXOsFully_sample :
  Wallet.spendUTXOsFully (collab := Sample.collaborators) 30 Sample.tom
    Sample.tomWallet
  = (Ok (Wallet.mkSpent [Sample.tomSigned] 50), Sample.tomWalletSigned).
Proof. reflexivity. Qed.

Lemma spendUTXOsFully_aged_selection_witness :
  exists utxo,
    utxo ∈ getAllAgedUTXOsBelongingTo (Collaborators := Sample.collaborators)
             (currentBlock Sample.tom) Sample.tomWallet
    /\ address (output Sample.tomSigned) = address utxo.
Proof.
  apply (spendUTXOsFully_aged_selection (collab := Sample.collaborators)
           30 Sample.tom Sample.tomWallet Sample.tomWalletSigned
           (Wallet.mkSpent [Sample.tomSigned] 50) eq_refl).
  constructor.
Defined.

(** C7 as stated fails: Tom's candidate block has chain length 2 and lists
    for his address the aged output of 50 and an output of 7 minted in the
    candidate itself, so that his balance on the chain is 50. His queue
    holds a coin for each; a spend of that balance selects both, the one of
    the still-open block first, and spends 57. *)
Lemma spendUTXOsFully_selects_open_output :
  getAllAgedUTXOsBelongingTo (Collaborators := Sample.collaborators)
    (currentBlock SampleRuns.tomMinting) SampleRuns.tomTwoCoins
  = [mkUTXO "addr:tom" 50 0]
  /\ chainNum (output SampleRuns.rewardCoin)
     = chainLength (currentBlock SampleRuns.tomMinting)
  /\ (output SampleRuns.rewardSigned
      ∉ getAllAgedUTXOsBelongingTo (Collaborators := Sample.collaborators)
          (currentBlock SampleRuns.tomMinting) SampleRuns.tomTwoCoins)
  /\ Wallet.balanceOnChain SampleRuns.tomTwoCoins SampleRuns.tomMinting = 50
  /\ Wallet.spendUTXOsFully (collab := Sample.collaborators) 50
       SampleRuns.tomMinting SampleRuns.tomTwoCoins
     = (Ok (Wallet.mkSpent [SampleRuns.rewardSigned; Sample.tomSigned] 57),
        set_coins (fun _ => [SampleRuns.rewardSigned; Sample.tomSigned])
          SampleRuns.tomTwoCoins).
Proof.
  assert (Haged :
    getAllAgedUTXOsBelongingTo (Collaborators := Sample.collaborators)
      (currentBlock SampleRuns.tomMinting) SampleRuns.tomTwoCoins
    = [mkUTXO "addr:tom" 50 0]) by (vm_compute; reflexivity).
  split; [exact Haged|]. split; [reflexivity|]. split.
  - rewrite Haged. intros Hin. apply list_elem_of_singleton in Hin.
    discriminate Hin.
  - split; vm_compute; reflexivity.
Qed.

Lemma spendUTXOsFully_totalSpent_witness :
  Wallet.totalSpent (Wallet.mkSpent [Sample.tomSigned] 50)
  = sumAmounts [Sample.tomSigned]
  /\ 30 < Wallet.totalSpent (Wallet.mkSpent [Sample.tomSigned] 50).
Proof.
  destruct (spendUTXOsFully_totalSpent (collab := Sample.collaborators)
              30 Sample.tom Sample.tomWallet Sample.tomWalletSigned
              (Wallet.mkSpent [Sample.tomSigned] 50) eq_refl)
    as [Htotal Hover].
  split; [exact Htotal|].
  apply (Hover [] Sample.tomSigned); reflexivity.
Defined.

(** The input on which C6 fails: Tom's wallet holds a coin of 50 that the
    view of the chain does not list. His balance on the chain is 0, and
    [spendUTXOsFully(50, miner)] returns, with no input and a total of 0. *)
Lemma spendUTXOsFully_balanceOnChain_zero :
  Wallet.balanceOnChain Sample.tomWallet Sample.tomOnFork = 0
  /\ Wallet.balance Sample.tomWallet = 50
  /\ Wallet.spendUTXOsFully (collab := Sample.collaborators) 50
       Sample.tomOnFork Sample.tomWallet
     = (Ok (Wallet.mkSpent [] 0), Sample.tomWallet).
Proof.
  split; [reflexivity|]. split; [reflexivity|].
  apply spendUTXOsFully_stale_balance; [discriminate | reflexivity].
Qed.

(** The coin age of [source/wallet.js] is neither floored nor clamped: Sam's
    5000 coins, one block old, give 5. *)
Example getCoinAgeOfWalletOnChain_source_sample :
  (WalletSource.getCoinAgeOfWalletOnChain (collab := Sample.collaborators)
     Sample.samWallet Sample.sam == 5)%Q.
Proof. reflexivity. Qed.

(** * Further properties *)

(** ** The bit count *)

Lemma append_length (x y : string) :
  String.length (x +:+ y) = (String.length x + String.length y)%nat.
Proof.
  induction x as [|c x IH]; [reflexivity|].
  change (S (String.length (x +:+ y)) = S (String.length x + String.length y)).
  f_equal. exact IH.
Qed.

Lemma toString2_printable (c : ascii) :
  (32 <= N_of_ascii c)%N ->
  (6 <= String.length (toString2 (N_of_ascii c)))%nat.
Proof.
  destruct c as [[] [] [] [] [] [] [] []]; vm_compute; intros Hc;
    first [lia | exfalso; apply Hc; reflexivity].
Qed.

Lemma binaryDigits_printable (s : string) :
  codesAtLeast 32 s = true ->
  (6 * String.length s <= String.length (binaryDigits s))%nat.
Proof.
  induction s as [|c s IH]; cbn [codesAtLeast binaryDigits String.length];
    [lia|].
  intros Hs. apply andb_true_iff in Hs as [Hc Hs]. apply N.leb_le in Hc.
  rewrite append_length. pose proof (toString2_printable c Hc).
  specialize (IH Hs). lia.
Qed.

Lemma countLoop_bounds (x y : string) (total : Z) :
  total <= countLoop x y total <= total + Z.of_nat (String.length x).
Proof.
  revert y total. induction x as [|a x IH]; intros y total; cbn; [lia|].
  destruct y as [|b y]; [lia|]. destruct (Ascii.eqb a b); [|lia].
  specialize (IH y (total + 1)). lia.
Qed.

(** X1. A string of at least 3 characters with codes of 32 or more (as the
    hexadecimal and base64 digests are) projects to exactly 16 bits. For a
    previous-block hash and a fingerprint of that kind the eligibility test
    returns, for every threshold: it answers whether the threshold is at
    most a bit count that lies between 0 and 16. *)
Theorem isEligibileToMint_digests (miner : Miner) (b : Block) (target : Z)
    (fingerprint : string) :
  eligibility_address (wallet miner) = Some fingerprint ->
  (3 <= String.length (prevBlockHash b))%nat ->
  codesAtLeast 32 (prevBlockHash b) = true ->
  (3 <= String.length fingerprint)%nat ->
  codesAtLeast 32 fingerprint = true ->
  String.length (text2Binary (prevBlockHash b)) = 16%nat
  /\ String.length (text2Binary fingerprint) = 16%nat
  /\ exists matching,
       0 <= matching <= 16
       /\ countMatchingBits (text2Binary (prevBlockHash b))
            (text2Binary fingerprint) = Ok matching
       /\ Miner.isEligibileToMint miner b target = Ok (target <=? matching).
Proof.
  intros Hfp Hlen Hcodes Hlen' Hcodes'.
  assert (H16 : forall s, (3 <= String.length s)%nat ->
                  codesAtLeast 32 s = true ->
                  String.length (text2Binary s) = 16%nat).
  { intros s Hs Hc. apply text2Binary_length_16.
    pose proof (binaryDigits_printable s Hc). lia. }
  pose proof (H16 _ Hlen Hcodes) as Hh. pose proof (H16 _ Hlen' Hcodes') as Hf.
  split; [exact Hh|]. split; [exact Hf|].
  exists (countLoop (text2Binary (prevBlockHash b)) (text2Binary fingerprint) 0).
  pose proof (countLoop_bounds (text2Binary (prevBlockHash b))
                (text2Binary fingerprint) 0) as Hb.
  rewrite Hh in Hb.
  assert (Hcount : countMatchingBits (text2Binary (prevBlockHash b))
                     (text2Binary fingerprint)
                   = Ok (countLoop (text2Binary (prevBlockHash b))
                           (text2Binary fingerprint) 0)).
  { unfold countMatchingBits. rewrite Hh, Hf. reflexivity. }
  split; [lia|]. split; [exact Hcount|].
  unfold Miner.isEligibileToMint, Wallet.getEligibilityAddress.
  rewrite Hfp, Hcount. reflexivity.
Qed.

Lemma isEligibileToMint_digests_witness :
  exists matching,
    0 <= matching <= 16
    /\ countMatchingBits (text2Binary "a3f1") (text2Binary "9e12345")
       = Ok matching
    /\ Miner.isEligibileToMint Sample.sam Sample.candidate 3
       = Ok (3 <=? matching).
Proof.
  exact (proj2 (proj2 (isEligibileToMint_digests Sample.sam Sample.candidate 3
                         "9e12345" eq_refl ltac:(cbn; lia) eq_refl
                         ltac:(cbn; lia) eq_refl))).
Defined.

Lemma isEligibileToMint_lower (miner : Miner) (b : Block) (target lower : Z) :
  Miner.isEligibileToMint miner b target = Ok true ->
  lower <= target ->
  Miner.isEligibileToMint miner b lower = Ok true.
Proof.
  unfold Miner.isEligibileToMint, Wallet.getEligibilityAddress.
  destruct (eligibility_address (wallet miner)) as [f|]; [|discriminate].
  destruct (countMatchingBits _ _) as [n|e]; [|discriminate].
  intros [= Hn] Hlower. apply Z.leb_le in Hn. f_equal. apply Z.leb_le. lia.
Qed.

(** X2. The answer of the eligibility test is monotone in the threshold: a
    miner eligible at a threshold is eligible at every lower one. The test
    accepts at every threshold of 0 or less and rejects at every threshold
    above 16, whenever it returns. *)
Theorem isEligibileToMint_threshold (miner : Miner) (b : Block)
    (target : Z) (eligible : bool) :
  Miner.isEligibileToMint miner b target = Ok eligible ->
  (forall lower, lower <= target -> eligible = true ->
     Miner.isEligibileToMint miner b lower = Ok true)
  /\ (target <= 0 -> eligible = true)
  /\ (16 < target -> eligible = false).
Proof.
  unfold Miner.isEligibileToMint, Wallet.getEligibilityAddress.
  destruct (eligibility_address (wallet miner)) as [f|]; [|discriminate].
  unfold countMatchingBits. destruct (Nat.eqb _ _); [|discriminate].
  pose proof (countLoop_bounds (text2Binary (prevBlockHash b))
                (text2Binary f) 0) as Hb.
  pose proof (text2Binary_length_le (prevBlockHash b)) as Hle.
  intros [= <-]. split; [|split].
  - intros lower Hlower Hel. apply Z.leb_le in Hel. f_equal.
    apply Z.leb_le. lia.
  - intros Ht. apply Z.leb_le. lia.
  - intros Ht. apply Z.leb_gt. lia.
Qed.

Lemma isEligibileToMint_threshold_witness :
  Miner.isEligibileToMint Sample.tom Sample.candidate 0 = Ok true.
Proof.
  refine (proj1 (isEligibileToMint_threshold Sample.tom Sample.candidate 3
                   true eq_refl) 0 _ eq_refl).
  lia.
Defined.

Lemma ascii_eqb_sym (a b : ascii) : Ascii.eqb a b = Ascii.eqb b a.
Proof.
  destruct (Ascii.eqb_spec a b) as [->|Hab].
  - symmetry. apply Ascii.eqb_refl.
  - symmetry. apply Ascii.eqb_neq. congruence.
Qed.

Lemma countLoop_sym (x y : string) (total : Z) :
  countLoop x y total = countLoop y x total.
Proof.
  revert y total. induction x as [|a x IH]; intros [|b y] total; cbn;
    try reflexivity.
  rewrite ascii_eqb_sym. destruct (Ascii.eqb b a); [apply IH | reflexivity].
Qed.

Lemma countLoop_full (x y : string) (total : Z) :
  String.length x = String.length y ->
  (countLoop x y total = total + Z.of_nat (String.length x) <-> x = y).
Proof.
  revert y total. induction x as [|a x IH]; intros [|b y] total Hlen;
    cbn in *; try discriminate Hlen.
  - split; [reflexivity | lia].
  - injection Hlen as Hlen.
    destruct (Ascii.eqb_spec a b) as [->|Hab].
    + pose proof (IH y (total + 1) Hlen) as [Hto Hfrom]. split.
      * intros Heq. f_equal. apply Hto. lia.
      * intros [= Hxy]. specialize (Hfrom Hxy). lia.
    + pose proof (countLoop_bounds x y total). split; [lia | congruence].
Qed.

(** X3. The bit count does not depend on the order of its two arguments,
    and it equals the common length exactly when the two strings are the
    same. *)
Theorem countMatchingBits_sym (x y : string) :
  countMatchingBits x y = countMatchingBits y x
  /\ (forall n, countMatchingBits x y = Ok n ->
        (n = Z.of_nat (String.length x) <-> x = y)).
Proof.
  unfold countMatchingBits. split.
  - rewrite Nat.eqb_sym. destruct (Nat.eqb _ _); [|reflexivity].
    rewrite countLoop_sym. reflexivity.
  - intros n. destruct (Nat.eqb_spec (String.length x) (String.length y))
      as [Hlen|Hlen]; [|discriminate].
    intros [= <-]. apply (countLoop_full x y 0 Hlen).
Qed.

Lemma pos_toString2_head (p : positive) :
  exists rest, pos_toString2 p = String "1" rest.
Proof.
  induction p as [p [r IH]|p [r IH]|]; cbn.
  - rewrite IH. eexists. reflexivity.
  - rewrite IH. eexists. reflexivity.
  - eexists. reflexivity.
Qed.

Lemma text2Binary_head (s : string) :
  startsNonZero s = true -> exists rest, text2Binary s = String "1" rest.
Proof.
  destruct s as [|c s]; [discriminate|]. cbn [startsNonZero].
  intros Hc. apply negb_true_iff, N.eqb_neq in Hc.
  unfold text2Binary. cbn [binaryDigits].
  destruct (N_of_ascii c) as [|p]; [congruence|]. cbn [toString2].
  destruct (pos_toString2_head p) as [r ->]. eexists. reflexivity.
Qed.

(** X4. Two strings that start with a character of non-zero code have
    projections that agree on their first bit: when the projections have
    the same length the bit count is at least 1, and the miner is eligible
    at every threshold of 1 or less. *)
Theorem isEligibileToMint_first_bit (miner : Miner) (b : Block) (target : Z)
    (fingerprint : string) :
  eligibility_address (wallet miner) = Some fingerprint ->
  startsNonZero (prevBlockHash b) = true ->
  startsNonZero fingerprint = true ->
  String.length (text2Binary (prevBlockHash b))
  = String.length (text2Binary fingerprint) ->
  exists matching,
    1 <= matching
    /\ countMatchingBits (text2Binary (prevBlockHash b))
         (text2Binary fingerprint) = Ok matching
    /\ (target <= 1 -> Miner.isEligibileToMint miner b target = Ok true).
Proof.
  intros Hfp Hh Hf Hlen.
  destruct (text2Binary_head _ Hh) as [rh Hrh].
  destruct (text2Binary_head _ Hf) as [rf Hrf].
  unfold Miner.isEligibileToMint, Wallet.getEligibilityAddress, countMatchingBits.
  rewrite Hfp. apply Nat.eqb_eq in Hlen. rewrite Hlen. rewrite Hrh, Hrf.
  cbn [countLoop]. rewrite Ascii.eqb_refl.
  pose proof (countLoop_bounds rh rf (0 + 1)) as Hb.
  eexists. split; [|split; [reflexivity|]]; [lia|].
  intros Ht. f_equal. apply Z.leb_le. lia.
Qed.

Lemma isEligibileToMint_first_bit_witness :
  exists matching,
    1 <= matching
    /\ countMatchingBits (text2Binary "a3f1") (text2Binary "9e12345")
       = Ok matching
    /\ (1 <= 1 -> Miner.isEligibileToMint Sample.sam Sample.candidate 1
                  = Ok true).
Proof.
  exact (isEligibileToMint_first_bit Sample.sam Sample.candidate 1 "9e12345"
           eq_refl eq_refl eq_refl eq_refl).
Defined.

(** ** The miner: retries, validation in time, stored blocks *)

Section Engine.
Context {collab : Collaborators}.

Lemma retryUpTo_exact (kpR kpS : KeyPair) (fingerprint : string)
    (matching : Z) (n : nat) :
  forall m : Miner,
    shouldStartNewBlock m = false ->
    eligibility_address (wallet m) = Some fingerprint ->
    countMatchingBits (text2Binary (prevBlockHash (currentBlock m)))
      (text2Binary fingerprint) = Ok matching ->
    shouldMine m = false ->
    is_Some (mintingTimeout m) ->
    Z.max 0 (mint_elegibility_diff_dyn m - matching) < Z.of_nat n ->
    exists m',
      retryUpTo n kpR kpS m = (Ok tt, m')
      /\ shouldMine m' = true
      /\ mint_elegibility_diff_dyn m'
         = Z.min (mint_elegibility_diff_dyn m) matching
      /\ console m'
         = console m
           ++ repeat LogUnableToMint
                (Z.to_nat (mint_elegibility_diff_dyn m - matching))
           ++ [LogEligible].
Proof.
  induction n as [|n IH]; intros m Hflag Hfp Hcount Hmine [reuse Htimer] Hn;
    [lia|].
  assert (Hstep : Miner.fireMintingTimeout kpR kpS m
                  = (Ok tt, afterTest reuse
                              (mint_elegibility_diff_dyn m <=? matching)
                              (Miner.set_mintingTimeout None m))).
  { unfold Miner.fireMintingTimeout, bind, get, modify. rewrite Htimer.
    rewrite startNewSearch_retry by exact Hflag.
    apply checkEligibility_run.
    apply (isEligibileToMint_count _ fingerprint); assumption. }
  cbn [retryUpTo]. unfold bind at 1, get. rewrite Hmine.
  unfold bind at 1. rewrite Hstep.
  destruct (Z.leb_spec (mint_elegibility_diff_dyn m) matching) as [Hle|Hgt].
  - exists (afterTest reuse true (Miner.set_mintingTimeout None m)).
    split; [destruct n; reflexivity|]. cbn.
    split; [reflexivity|]. split; [lia|].
    replace (Z.to_nat (mint_elegibility_diff_dyn m - matching)) with 0%nat
      by lia.
    reflexivity.
  - set (m1 := afterTest reuse false (Miner.set_mintingTimeout None m)).
    destruct (IH m1) as (m' & Hrun & Hm' & Hd & Hlog);
      try (subst m1; cbn; eauto; fail).
    { subst m1; cbn. lia. }
    exists m'. split; [exact Hrun|]. split; [exact Hm'|].
    subst m1. cbn in Hd, Hlog. split; [lia|].
    rewrite Hlog, <- app_assoc.
    replace (Z.to_nat (mint_elegibility_diff_dyn m - matching))
      with (S (Z.to_nat (mint_elegibility_diff_dyn m - 1 - matching))) by lia.
    reflexivity.
Qed.

(** X5. On a fixed view and fingerprint with bit count [matching], a
    proposal cycle that starts at threshold [d] fails exactly
    [max 0 (d - matching)] tests and then makes the miner eligible, with the
    threshold at [min d matching], provided that many retries are allowed. *)
Theorem eligibilityCycle_exact (m : Miner) (reuse : bool) (kpR kpS : KeyPair)
    (fingerprint : string) (matching : Z) (n : nat) :
  shouldStartNewBlock m = false ->
  eligibility_address (wallet m) = Some fingerprint ->
  countMatchingBits (text2Binary (prevBlockHash (currentBlock m)))
    (text2Binary fingerprint) = Ok matching ->
  mint_elegibility_diff_dyn m - matching <= Z.of_nat n ->
  exists m',
    eligibilityCycle n reuse kpR kpS m = (Ok tt, m')
    /\ shouldMine m' = true
    /\ mint_elegibility_diff_dyn m'
       = Z.min (mint_elegibility_diff_dyn m) matching
    /\ console m'
       = console m
         ++ repeat LogUnableToMint
              (Z.to_nat (mint_elegibility_diff_dyn m - matching))
         ++ [LogEligible].
Proof.
  intros Hflag Hfp Hcount Hn.
  pose proof (isEligibileToMint_count m fingerprint matching
                (mint_elegibility_diff_dyn m) Hfp Hcount) as Htest.
  pose proof (checkEligibility_run reuse m _ Htest) as Hrun.
  unfold eligibilityCycle, bind at 1. rewrite Hrun.
  destruct (Z.leb_spec (mint_elegibility_diff_dyn m) matching) as [Hle|Hgt].
  - exists (afterTest reuse true m).
    split; [destruct n; reflexivity|]. cbn.
    split; [reflexivity|]. split; [lia|].
    replace (Z.to_nat (mint_elegibility_diff_dyn m - matching)) with 0%nat
      by lia.
    reflexivity.
  - set (m1 := afterTest reuse false m).
    destruct (retryUpTo_exact kpR kpS fingerprint matching n m1)
      as (m' & Hrun' & Hm' & Hd & Hlog);
      try (subst m1; cbn; eauto; fail).
    { subst m1; cbn. lia. }
    exists m'. split; [exact Hrun'|]. split; [exact Hm'|].
    subst m1. cbn in Hd, Hlog. split; [lia|].
    rewrite Hlog, <- app_assoc.
    replace (Z.to_nat (mint_elegibility_diff_dyn m - matching))
      with (S (Z.to_nat (mint_elegibility_diff_dyn m - 1 - matching))) by lia.
    reflexivity.
Qed.

Lemma minMintingDifficulty_mono (b : Block) (t t' : Z) :
  t <= t' ->
  Miner.minMintingDifficulty t' b <= Miner.minMintingDifficulty t b.
Proof.
  intros Ht. unfold Miner.minMintingDifficulty. cbv zeta.
  unfold Miner.MINT_ELEGIBILITY_DIFFICULTY,
    Miner.TIME_UNTIL_ELIGIBILITY_DECREASE.
  assert ((t - timestamp b + 100) / 30000 <= (t' - timestamp b + 100) / 30000)
    by (apply Z.div_le_mono; lia).
  lia.
Qed.

(** X6. Validation of a peer's block only gets easier with time. A block
    that [isValidBlock] answers for at one time gets the same answer at
    every later time, the miner's state unchanged. And, whatever it did
    before, from 89.9 seconds after the timestamp of the block on (threshold
    0 or less) it answers with the proof check for every sender whose bit
    count is defined. *)
Theorem isValidBlock_later (b : Block) (miner : option Miner) (this : Miner) :
  (forall (t t' : Z) (valid : bool),
     t <= t' ->
     fst (Miner.isValidBlock b miner t this) = Ok valid ->
     Miner.isValidBlock b miner t' this = (Ok valid, this))
  /\ (forall (sender : Miner) (matching : Z) (fingerprint : string) (t' : Z),
        miner = Some sender ->
        eligibility_address (wallet sender) = Some fingerprint ->
        countMatchingBits (text2Binary (prevBlockHash b))
          (text2Binary fingerprint) = Ok matching ->
        timestamp b + 89900 <= t' ->
        Miner.isValidBlock b miner t' this = (Ok (verifyProof b), this)).
Proof.
  split.
  - intros t t' valid Ht Hvalid. rewrite !isValidBlock_cases in *.
    destruct miner as [sender|]; cbn in *.
    + destruct (Miner.isEligibileToMint sender b (Miner.minMintingDifficulty t b))
        as [[|]|e] eqn:Htest; cbn in Hvalid; try discriminate Hvalid.
      rewrite (isEligibileToMint_lower _ _ _ _ Htest
                 (minMintingDifficulty_mono b t t' Ht)).
      rewrite Hvalid. reflexivity.
    + rewrite Hvalid. reflexivity.
  - intros sender matching fingerprint t' -> Hfp Hcount Hlate.
    rewrite isValidBlock_cases.
    unfold Miner.isEligibileToMint, Wallet.getEligibilityAddress.
    rewrite Hfp, Hcount.
    pose proof (countMatchingBits_nonneg _ _ _ Hcount) as Hpos.
    assert (Hthr : Miner.minMintingDifficulty t' b <= 0).
    { unfold Miner.minMintingDifficulty. cbv zeta.
      unfold Miner.MINT_ELEGIBILITY_DIFFICULTY,
        Miner.TIME_UNTIL_ELIGIBILITY_DECREASE.
      assert (3 <= (t' - timestamp b + 100) / 30000)
        by (apply Z.div_le_lower_bound; lia).
      lia. }
    replace (Miner.minMintingDifficulty t' b <=? matching) with true
      by (symmetry; apply Z.leb_le; lia).
    reflexivity.
Qed.

End Engine.

Lemma eligibilityCycle_exact_witness :
  exists m',
    eligibilityCycle (collab := Sample.collaborators) 1 false Sample.tomKeys
      Sample.freshKeys Sample.sam = (Ok tt, m')
    /\ shouldMine m' = true
    /\ mint_elegibility_diff_dyn m' = Z.min 3 2
    /\ console m' = [] ++ repeat LogUnableToMint (Z.to_nat (3 - 2))
                       ++ [LogEligible].
Proof.
  apply (eligibilityCycle_exact (collab := Sample.collaborators) Sample.sam
           false Sample.tomKeys Sample.freshKeys "9e12345" 2 1
           eq_refl eq_refl eq_refl).
  cbn. lia.
Defined.

Lemma isValidBlock_later_witness :
  Miner.isValidBlock (collab := Sample.collaborators) Sample.peerBlock
    (Some Sample.sam) 40000 Sample.tom = (Ok true, Sample.tom)
  /\ Miner.isValidBlock (collab := Sample.collaborators) Sample.peerBlock
       (Some Sample.sam) 90900 Sample.tom
     = (Ok (verifyProof (Collaborators := Sample.collaborators)
              Sample.peerBlock), Sample.tom).
Proof.
  destruct (isValidBlock_later (collab := Sample.collaborators)
              Sample.peerBlock (Some Sample.sam) Sample.tom) as [Hsame Hlate].
  split.
  - apply (Hsame 31000 40000 true); [lia | reflexivity].
  - apply (Hlate Sample.sam 2 "9e12345" 90900 eq_refl eq_refl eq_refl).
    cbn. lia.
Defined.

(** ** The miner: a new proposal cycle *)

Section Cycle.
Context {collab : Collaborators}.

Lemma bind_ok {S A B} (c : M S A) (k : A -> M S B) (s s1 : S) (a : A) :
  c s = (Ok a, s1) -> bind c k s = k a s1.
Proof. intros Hc. unfold bind. rewrite Hc. reflexivity. Qed.

Lemma bind_throw {S A B} (c : M S A) (k : A -> M S B) (s s1 : S)
    (e : JsError) :
  c s = (Throw e, s1) -> bind c k s = (Throw e, s1).
Proof. intros Hc. unfold bind. rewrite Hc. reflexivity. Qed.

Lemma settled_refl (m : Miner) : settled m m.
Proof. repeat split. Qed.

Lemma settled_trans (m1 m2 m3 : Miner) :
  settled m1 m2 -> settled m2 m3 -> settled m1 m3.
Proof.
  intros (H1 & H2 & H3 & H4 & H5) (H1' & H2' & H3' & H4' & H5').
  repeat split; congruence.
Qed.

Lemma settled_bind {A B} (c : M Miner A) (k : A -> M Miner B) :
  preserves settled c -> (forall a, preserves settled (k a)) ->
  preserves settled (bind c k).
Proof.
  intros Hc Hk m. unfold bind. specialize (Hc m).
  destruct (c m) as [[a|e] m1]; cbn in *; [|exact Hc].
  eapply settled_trans; [exact Hc | apply Hk].
Qed.

Lemma settled_onWallet {A} (f : M Wallet A) :
  preserves settled (Miner.onWallet f).
Proof.
  intros m. unfold Miner.onWallet. destruct (f (wallet m)) as [r w].
  repeat split.
Qed.

Lemma settled_commitCoinAge (kpSelf : KeyPair) :
  preserves settled (Miner.commitCoinAge kpSelf).
Proof.
  unfold Miner.commitCoinAge.
  repeat first
    [ apply settled_bind; [|intros ?]
    | apply settled_onWallet
    | intros ?; apply settled_refl
    | intros ?; repeat split; fail
    | match goal with
      | |- preserves _ (if ?c then _ else _) => destruct c
      | |- preserves _ (match ?c with _ => _ end) => destruct c
      end ].
  intros m. destruct (spendCoinAge _ _ _ _) as [r b]. repeat split.
Qed.

Lemma openCandidate_run (reuse : bool) (kpR : KeyPair) (m : Miner) :
  exists m1,
    Miner.openCandidate reuse kpR m = (Ok tt, m1)
    /\ shouldStartNewBlock m1 = false
    /\ mint_elegibility_diff_dyn m1 = Miner.MINT_ELEGIBILITY_DIFFICULTY
    /\ mintingTimeout m1 = None
    /\ shouldMine m1 = shouldMine m
    /\ rewardAddress m1
       = (if reuse then rewardAddress m
          else Some (utils_calcAddress (public kpR)))
    /\ keepsBlocks m m1.
Proof.
  destruct reuse; eexists; (split; [reflexivity|]); cbn;
    repeat split; intros h Hh; apply lookup_insert_is_Some';
    right; exact Hh.
Qed.

(** X7. A search that starts a new block and returns has reset the cycle:
    no new block is due, the reward address is the one asked for (reused,
    or made from the new key pair), and either the miner is eligible at the
    base threshold 3 with no retry pending, or it is not, the threshold is
    2 and the one pending retry carries the flag of this search. *)
Theorem startNewSearch_new_cycle (m m' : Miner) (reuse : bool)
    (kpR kpS : KeyPair) :
  shouldStartNewBlock m = true ->
  Miner.startNewSearch reuse kpR kpS m = (Ok tt, m') ->
  shouldStartNewBlock m' = false
  /\ rewardAddress m'
     = (if reuse then rewardAddress m
        else Some (utils_calcAddress (public kpR)))
  /\ ((shouldMine m' = true
       /\ mint_elegibility_diff_dyn m' = Miner.MINT_ELEGIBILITY_DIFFICULTY
       /\ mintingTimeout m' = None)
      \/ (shouldMine m' = false
          /\ mint_elegibility_diff_dyn m'
             = Miner.MINT_ELEGIBILITY_DIFFICULTY - 1
          /\ mintingTimeout m' = Some reuse)).
Proof.
  intros Hflag.
  destruct (openCandidate_run reuse kpR m)
    as (m1 & Hopen & Hf1 & Hd1 & Ht1 & _ & Hr1 & _).
  assert (Heq : Miner.startNewSearch reuse kpR kpS m
                = bind (Miner.commitCoinAge kpS)
                    (fun _ => Miner.checkEligibility reuse) m1).
  { unfold Miner.startNewSearch, bind at 1, get. rewrite Hflag.
    unfold Miner.buildCandidate, bind. rewrite Hopen. reflexivity. }
  rewrite Heq. clear Heq.
  pose proof (settled_commitCoinAge kpS m1) as Hsettled.
  unfold bind at 1.
  destruct (Miner.commitCoinAge kpS m1) as [[[]|e] m2];
    [|intros Hr; discriminate Hr].
  destruct Hsettled as (Hr2 & Hf2 & Hd2 & Ht2 & _). cbn [snd] in *.
  unfold Miner.checkEligibility.
  rewrite (bind_ok get _ m2 m2 m2) by reflexivity.
  unfold bind at 1, lift.
  destruct (Miner.isEligibileToMint m2 (currentBlock m2)
              (mint_elegibility_diff_dyn m2)) as [[|]|e];
    [| |intros Hr; discriminate Hr]; intros [= <-]; cbn.
  - split; [congruence|]. split; [congruence|]. left.
    repeat split; congruence.
  - split; [congruence|]. split; [congruence|]. right.
    repeat split; congruence.
Qed.

Lemma spendFullyLoop_nothing (addrs : gmap string KeyPair)
    (valid : list string) (queue : list Coin) (amt : Z)
    (needed : list Coin) :
  amt <= 0 ->
  Wallet.spendFullyLoop addrs valid queue amt needed
  = (Ok (needed, amt), queue).
Proof.
  intros Hamt. destruct queue as [|c queue]; cbn; [reflexivity|].
  destruct (Z.ltb_spec 0 amt); [lia | reflexivity].
Qed.

Lemma set_coins_same (w : Wallet) : set_coins (fun _ => coins w) w = w.
Proof. destruct w. reflexivity. Qed.

Lemma set_wallet_same (m : Miner) : Miner.set_wallet (wallet m) m = m.
Proof. destruct m. reflexivity. Qed.

(** X8. A miner whose wallet has no balance on the chain it builds on
    cannot commit any coin age: the request of 0 selects no coin, and the
    search throws the error of a miner that cannot mine. The queue of the
    wallet is as it was. *)
Theorem commitCoinAge_no_stake (kpSelf : KeyPair) (m : Miner) :
  Wallet.balanceOnChain (snd (Wallet.makeAddress kpSelf (wallet m))) m = 0 ->
  0 <= Wallet.balance (wallet m) ->
  fst (Miner.commitCoinAge kpSelf m) = Throw NoSpendableCoinAge
  /\ coins (wallet (snd (Miner.commitCoinAge kpSelf m))) = coins (wallet m).
Proof.
  intros Hchain Hlocal.
  set (w1 := snd (Wallet.makeAddress kpSelf (wallet m))) in *.
  assert (Hspend : forall miner,
            Wallet.spendUTXOsFully 0 miner w1 = (Ok (Wallet.mkSpent [] 0), w1)).
  { intros miner. unfold Wallet.spendUTXOsFully.
    change (Wallet.balance w1) with (Wallet.balance (wallet m)).
    destruct (Z.ltb_spec (Wallet.balance (wallet m)) 0) as [Hlt|_]; [lia|].
    cbv zeta. rewrite spendFullyLoop_nothing by lia.
    rewrite set_coins_same. reflexivity. }
  unfold Miner.commitCoinAge.
  erewrite bind_ok by (unfold Miner.onWallet, Wallet.makeAddress; reflexivity).
  erewrite bind_ok by reflexivity.
  erewrite bind_ok by reflexivity.
  erewrite bind_ok by reflexivity.
  erewrite bind_ok by reflexivity.
  erewrite bind_ok by reflexivity.
  erewrite bind_ok by reflexivity.
  erewrite bind_ok.
  2:{ unfold Miner.onWallet. cbn [wallet Miner.set_wallet Miner.set_console
        Miner.set_currentBlock].
      change (Wallet.balanceOnChain _ _) with (Wallet.balanceOnChain w1 m).
      rewrite Hchain, Hspend. reflexivity. }
  cbn. split; reflexivity.
Qed.

End Cycle.

Lemma startNewSearch_new_cycle_witness :
  let out :=
    Miner.startNewSearch (collab := Sample.collaborators) false
      Sample.freshKeys SampleRuns.selfKeys SampleRuns.tomStarting in
  shouldStartNewBlock (snd out) = false
  /\ rewardAddress (snd out) = Some "addr:fresh"
  /\ ((shouldMine (snd out) = true
       /\ mint_elegibility_diff_dyn (snd out) = 3
       /\ mintingTimeout (snd out) = None)
      \/ (shouldMine (snd out) = false
          /\ mint_elegibility_diff_dyn (snd out) = 3 - 1
          /\ mintingTimeout (snd out) = Some false)).
Proof.
  intros out.
  apply (startNewSearch_new_cycle (collab := Sample.collaborators)
           SampleRuns.tomStarting (snd out) false Sample.freshKeys
           SampleRuns.selfKeys eq_refl).
  vm_compute. reflexivity.
Defined.

Lemma commitCoinAge_no_stake_witness :
  fst (Miner.commitCoinAge (collab := Sample.collaborators)
         SampleRuns.selfKeys Sample.tomOnFork)
  = Throw NoSpendableCoinAge
  /\ coins (wallet (snd (Miner.commitCoinAge (collab := Sample.collaborators)
                           SampleRuns.selfKeys Sample.tomOnFork)))
     = coins (wallet Sample.tomOnFork).
Proof.
  apply (commitCoinAge_no_stake (collab := Sample.collaborators)
           SampleRuns.selfKeys Sample.tomOnFork); [reflexivity|].
  vm_compute. discriminate.
Defined.

(** ** The miner: stored blocks *)

Section Stored.
Context {collab : Collaborators}.

Lemma keepsBlocks_refl (m : Miner) : keepsBlocks m m.
Proof. intros h Hh. exact Hh. Qed.

Lemma keepsBlocks_trans (m1 m2 m3 : Miner) :
  keepsBlocks m1 m2 -> keepsBlocks m2 m3 -> keepsBlocks m1 m3.
Proof. intros H12 H23 h Hh. apply H23, H12, Hh. Qed.

Lemma keepsBlocks_same (m m' : Miner) :
  previousBlocks m' = previousBlocks m -> keepsBlocks m m'.
Proof. intros Heq h Hh. rewrite Heq. exact Hh. Qed.

Lemma cacheBlock_stores (b : Block) (m : Miner) :
  (forall h, previousBlocks (Miner.cacheBlock b m) !! h
             = previousBlocks m !! h
             \/ (h = hashVal b
                 /\ previousBlocks (Miner.cacheBlock b m) !! h = Some b))
  /\ (hashVal b ∉ objectPrototypeNames ->
      previousBlocks (Miner.cacheBlock b m) !! hashVal b = Some b
      \/ exists old, previousBlocks m !! hashVal b = Some old
                     /\ previousBlocks (Miner.cacheBlock b m) !! hashVal b
                        = Some old).
Proof.
  unfold Miner.cacheBlock.
  destruct (readSlot_cases (previousBlocks m) (hashVal b))
    as [(old & Hold & ->)|[(Hn & Hk & ->)|(Hn & Hk & ->)]]; cbn.
  - split; [auto|]. intros _. right. exists old. auto.
  - split; [auto|]. intros Hno. contradiction.
  - split.
    + intros h. destruct (decide (hashVal b = h)) as [<-|Hne].
      * right. split; [reflexivity|]. apply lookup_insert_eq.
      * left. apply lookup_insert_ne, Hne.
    + intros _. left. apply lookup_insert_eq.
Qed.

(** What [receiveBlock] does with a block that passed validation. *)
Lemma receiveBlock_valid (this : Miner) (s : string) (miner : option Miner)
    (currentTime : Z) (kpR kpS : KeyPair) :
  fst (Miner.isValidBlock (Block_deserialize s) miner currentTime this)
  = Ok true ->
  Miner.receiveBlock s miner currentTime kpR kpS this
  = let b := Block_deserialize s in
    let cached := Miner.cacheBlock b this in
    if (chainLength (currentBlock this) <=? chainLength b)
       && Miner.isNotThis this miner
    then
      let search := Miner.startNewSearch true kpR kpS (cutOver b cached) in
      (match fst search with Ok _ => Ok None | Throw e => Throw e end,
       snd search)
    else (Ok None, cached).
Proof.
  intros Hvalid. apply isValidBlock_true in Hvalid.
  cbv zeta. set (b := Block_deserialize s) in *.
  set (cached := Miner.cacheBlock b this).
  assert (Hcached : ident cached = ident this
                    /\ currentBlock cached = currentBlock this).
  { subst cached. unfold Miner.cacheBlock.
    destruct (truthy _); split; reflexivity. }
  destruct Hcached as (Hid & Hcur).
  unfold Miner.receiveBlock. fold b.
  unfold bind at 1. rewrite Hvalid. cbn [negb].
  unfold bind at 1, modify. fold cached.
  unfold bind at 1, get. rewrite Hcur.
  replace (Miner.isNotThis cached miner) with (Miner.isNotThis this miner)
    by (unfold Miner.isNotThis; rewrite Hid; reflexivity).
  destruct (_ && _); [|reflexivity].
  unfold cutOver.
  generalize (Miner.startNewSearch true kpR kpS). intros search.
  unfold bind, Miner.log, modify, ret.
  destruct (search _) as [[[]|e] m']; reflexivity.
Qed.

(** What [receiveBlock] does with a block that failed validation. *)
Lemma receiveBlock_validation_rejects (this : Miner) (s : string)
    (miner : option Miner) (currentTime : Z) (kpR kpS : KeyPair) :
  let checked :=
    Miner.isValidBlock (Block_deserialize s) miner currentTime this in
  (fst checked = Ok false ->
   Miner.receiveBlock s miner currentTime kpR kpS this
   = (Ok (Some false),
      Miner.set_console (console this ++ [LogRejecting]) this))
  /\ (forall e, fst checked = Throw e ->
        Miner.receiveBlock s miner currentTime kpR kpS this
        = (Throw e, snd checked)).
Proof.
  intros checked.
  assert (Hstate : fst checked = Ok false -> snd checked = this).
  { subst checked. rewrite isValidBlock_cases.
    destruct miner as [sender|]; [|reflexivity].
    destruct (Miner.isEligibileToMint _ _ _) as [[|]|e]; cbn;
      try reflexivity; intros Hv; discriminate Hv. }
  split.
  - intros Hv. specialize (Hstate Hv).
    unfold Miner.receiveBlock. unfold bind at 1. fold checked.
    clearbody checked. destruct checked as [r m]. cbn [fst snd] in *.
    subst r m. reflexivity.
  - intros e Hv.
    unfold Miner.receiveBlock. unfold bind at 1. fold checked.
    clearbody checked. destruct checked as [r m]. cbn [fst snd] in *.
    subst r. reflexivity.
Qed.

(** X9. What [receiveBlock] does to [previousBlocks]. Every entry after the
    call is the entry of before or the received block, so no hash is
    dropped; an entry can be replaced by the received block, as line 76 of
    the new search stores it under the parent hash of the candidate. When
    validation fails or throws nothing changes. A block that passed
    validation is found under its hash after the call, as the received block
    or as the block that was stored there before, unless the hash is a name
    of [Object.prototype], which line 200 takes for a stored block. *)
Theorem receiveBlock_stores (this : Miner) (s : string)
    (miner : option Miner) (currentTime : Z) (kpR kpS : KeyPair) :
  let b := Block_deserialize s in
  let checked := fst (Miner.isValidBlock b miner currentTime this) in
  let out := Miner.receiveBlock s miner currentTime kpR kpS this in
  (forall h, previousBlocks (snd out) !! h = previousBlocks this !! h
             \/ previousBlocks (snd out) !! h = Some b)
  /\ keepsBlocks this (snd out)
  /\ (checked <> Ok true -> previousBlocks (snd out) = previousBlocks this)
  /\ (checked = Ok true ->
      hashVal b ∉ objectPrototypeNames ->
      previousBlocks (snd out) !! hashVal b = Some b
      \/ exists old, previousBlocks this !! hashVal b = Some old
                     /\ previousBlocks (snd out) !! hashVal b = Some old).
Proof.
  intros b checked out.
  assert (Hentries :
    (forall h, previousBlocks (snd out) !! h = previousBlocks this !! h
               \/ previousBlocks (snd out) !! h = Some b)
    /\ (checked <> Ok true -> previousBlocks (snd out) = previousBlocks this)
    /\ (checked = Ok true ->
        hashVal b ∉ objectPrototypeNames ->
        previousBlocks (snd out) !! hashVal b = Some b
        \/ exists old, previousBlocks this !! hashVal b = Some old
                       /\ previousBlocks (snd out) !! hashVal b = Some old)).
  { subst checked.
    destruct (fst (Miner.isValidBlock b miner currentTime this)) as [[|]|e]
      eqn:Hchecked.
    - pose proof (receiveBlock_valid this s miner currentTime kpR kpS Hchecked)
        as Hout.
      cbv zeta in Hout. fold b in Hout. fold out in Hout.
      destruct (cacheBlock_stores b this) as (Hcache & Hstored).
      pose proof (startNewSearch_cutOver kpR kpS b (Miner.cacheBlock b this))
        as Hsearch.
      cbv zeta in Hsearch.
      set (search := Miner.startNewSearch true kpR kpS
                       (cutOver b (Miner.cacheBlock b this))) in *.
      set (parent := prevBlockHash
                       (Block_new (rewardAddress (Miner.cacheBlock b this)) b))
        in *.
      clearbody search out parent.
      destruct (_ && _); subst out; cbn [fst snd].
      + destruct Hsearch as (_ & _ & Hp & _). rewrite Hp.
        split; [|split].
        * intros h. destruct (decide (parent = h)) as [<-|Hne].
          -- right. apply lookup_insert_eq.
          -- rewrite lookup_insert_ne by exact Hne.
             destruct (Hcache h) as [Hh|[_ Hh]]; auto.
        * intros Hno. destruct (Hno eq_refl).
        * intros _ Hname.
          destruct (decide (parent = hashVal b)) as [->|Hne].
          -- left. apply lookup_insert_eq.
          -- rewrite lookup_insert_ne by exact Hne. apply Hstored, Hname.
      + split; [|split].
        * intros h. destruct (Hcache h) as [Hh|[_ Hh]]; auto.
        * intros Hno. destruct (Hno eq_refl).
        * intros _ Hname. apply Hstored, Hname.
    - destruct (receiveBlock_validation_rejects this s miner currentTime
                  kpR kpS) as (Hfalse & _).
      fold b in Hfalse. specialize (Hfalse Hchecked).
      fold out in Hfalse. rewrite Hfalse. cbn [snd].
      split; [auto|]. split; [reflexivity|]. intros Hv. discriminate Hv.
    - destruct (receiveBlock_validation_rejects this s miner currentTime
                  kpR kpS) as (_ & Hthrow).
      fold b in Hthrow. specialize (Hthrow e Hchecked).
      fold out in Hthrow. rewrite Hthrow. cbn [snd].
      assert (Hsame : previousBlocks
                        (snd (Miner.isValidBlock b miner currentTime this))
                      = previousBlocks this).
      { rewrite isValidBlock_cases. destruct miner as [sender|]; [|reflexivity].
        destruct (Miner.isEligibileToMint _ _ _) as [[|]|e']; reflexivity. }
      rewrite Hsame.
      split; [auto|]. split; [reflexivity|]. intros Hv. discriminate Hv. }
  destruct Hentries as (Hall & Hfail & Hvalid).
  split; [exact Hall|]. split; [|split; [exact Hfail | exact Hvalid]].
  intros h [old Hold]. destruct (Hall h) as [Hh|Hh]; rewrite Hh; eauto.
Qed.

End Stored.

Lemma receiveBlock_stores_witness :
  let out :=
    Miner.receiveBlock (collab := Sample.collaborators) "peer"
      (Some Sample.sam) 40000 Sample.tomKeys Sample.freshKeys Sample.tom in
  previousBlocks (snd out) !! "#a3f1" = Some Sample.peerBlock
  \/ exists old,
       previousBlocks Sample.tom !! "#a3f1" = Some old
       /\ previousBlocks (snd out) !! "#a3f1" = Some old.
Proof.
  pose proof (receiveBlock_stores (collab := Sample.collaborators) Sample.tom
                "peer" (Some Sample.sam) 40000 Sample.tomKeys
                Sample.freshKeys) as Hstores.
  cbv zeta in Hstores. destruct Hstores as (_ & _ & _ & Hvalid).
  apply Hvalid.
  - vm_compute. reflexivity.
  - intros Hin. apply isObjectPrototypeName_elem in Hin.
    vm_compute in Hin. discriminate Hin.
Defined.

(** ** The wallet: what a spend selects *)

Section Spend.
Context {collab : Collaborators}.

Lemma sumAmounts_app (l1 l2 : list Coin) :
  sumAmounts (l1 ++ l2) = sumAmounts l1 + sumAmounts l2.
Proof.
  unfold sumAmounts. induction l1 as [|c l1 IH]; cbn; [reflexivity|].
  rewrite IH. lia.
Qed.

Lemma balance_sumAmounts (w : Wallet) :
  Wallet.balance w = sumAmounts (coins w).
Proof.
  unfold Wallet.balance.
  assert (Hgen : forall l acc,
            fold_left (fun acc c => acc + amount (output c)) l acc
            = acc + sumAmounts l).
  { induction l as [|c l IH]; intros acc; cbn; [lia|].
    rewrite IH. unfold sumAmounts. lia. }
  rewrite Hgen. lia.
Qed.

Lemma signCoin_signedBy (addrs : gmap string KeyPair) (c c' c2 : Coin) :
  Wallet.signCoin addrs c = (Ok c', c2) -> signedBy addrs c c' /\ c2 = c'.
Proof.
  unfold Wallet.signCoin, signedBy.
  destruct (readSlot_cases addrs (address (output c)))
    as [(kp & Hkp & ->)|[(Hn & Hk & ->)|(Hn & Hk & ->)]]; [| |discriminate].
  - destruct (utils_sign (private kp) (output c)) as [s|e] eqn:Hs;
      [|discriminate].
    intros [= <- <-]. split; [|reflexivity]. left. exists kp, s. auto.
  - destruct (utils_sign None (output c)) as [s|e] eqn:Hs; [|discriminate].
    intros [= <- <-]. split; [|reflexivity]. right. eauto.
Qed.

Lemma signedBy_output (addrs : gmap string KeyPair) (c c' : Coin) :
  signedBy addrs c c' -> coinId c' = coinId c.
Proof.
  intros [(kp & s & _ & _ & ->)|(_ & _ & s & _ & ->)]; reflexivity.
Qed.

Lemma signedBy_sum (addrs : gmap string KeyPair) (l l' : list Coin) :
  Forall2 (signedBy addrs) l l' -> sumAmounts l' = sumAmounts l.
Proof.
  induction 1 as [|c c' l l' Hc _ IH]; [reflexivity|].
  apply signedBy_output in Hc. unfold coinId in Hc.
  assert (Hout : output c' = output c) by congruence.
  unfold sumAmounts in *. cbn. rewrite IH, Hout. reflexivity.
Qed.

(** What the loop of [spendUTXOs] returns: the coins it takes are the first
    of the queue, signed; it stops when the amount is covered or the queue
    is at its end; and it takes no coin once the amount is covered. *)
Lemma spendLoop_result (addrs : gmap string KeyPair) (queue : list Coin) :
  forall amt needed needed' rest q,
    Wallet.spendLoop addrs queue amt needed = (Ok (needed', rest), q) ->
    exists taken,
      needed' = needed ++ taken
      /\ Forall2 (signedBy addrs) (take (length taken) queue) taken
      /\ q = taken ++ drop (length taken) queue
      /\ rest = amt - sumAmounts taken
      /\ (rest <= 0 \/ length taken = length queue)
      /\ (forall init last, taken = init ++ [last] ->
            sumAmounts init < amt).
Proof.
  induction queue as [|c queue IH]; intros amt needed needed' rest q; cbn.
  - intros [= <- <- <-]. exists []. rewrite app_nil_r.
    split; [reflexivity|]. split; [constructor|]. split; [reflexivity|].
    change (sumAmounts []) with 0. split; [lia|].
    split; [right; reflexivity|].
    intros [|? ?] ? Habs; discriminate Habs.
  - destruct (Z.ltb_spec 0 amt) as [Hpos|Hcov].
    + destruct (Wallet.signCoin addrs c) as [[c'|e] c2] eqn:Hsign;
        [|intros Hr; discriminate Hr].
      apply signCoin_signedBy in Hsign as [Hsigned ->].
      destruct (Wallet.spendLoop addrs queue (amt - amount (output c'))
                  (needed ++ [c'])) as [r q'] eqn:Hloop.
      intros [= -> <-].
      destruct (IH _ _ _ _ _ Hloop)
        as (taken & -> & Hsig & -> & -> & Hstop & Hmin).
      exists (c' :: taken). rewrite <- app_assoc.
      cbn [length firstn skipn app].
      split; [reflexivity|]. split; [constructor; assumption|].
      split; [reflexivity|].
      change (sumAmounts (c' :: taken))
        with (amount (output c') + sumAmounts taken).
      split; [lia|]. split; [destruct Hstop; [left; lia | right; lia]|].
      intros init last Hsplit. destruct init as [|d init]; cbn in Hsplit.
      * change (sumAmounts []) with 0. lia.
      * injection Hsplit as <- Hsplit.
        specialize (Hmin init last Hsplit).
        change (sumAmounts (c' :: init))
          with (amount (output c') + sumAmounts init). lia.
    + intros [= <- <- <-]. exists []. rewrite app_nil_r.
      split; [reflexivity|]. split; [constructor|]. split; [reflexivity|].
      change (sumAmounts []) with 0. split; [lia|]. split; [left; lia|].
      intros [|? ?] ? Habs; discriminate Habs.
Qed.

(** X10. When [spendUTXOs] returns, its inputs are the first coins of the
    queue, each with the public key and the signature of its address; the
    queue holds them in their signed form; the inputs sum to the amount
    asked plus the change, which is not negative; and the last input was
    needed: the inputs before it fall short of the amount. *)
Theorem spendUTXOs_change (amt : Z) (w w' : Wallet) (r : Wallet.Change) :
  Wallet.spendUTXOs amt w = (Ok r, w') ->
  let n := length (Wallet.changeInputs r) in
  Forall2 (signedBy (addresses w)) (take n (coins w)) (Wallet.changeInputs r)
  /\ coins w' = Wallet.changeInputs r ++ drop n (coins w)
  /\ sumAmounts (Wallet.changeInputs r) = amt + Wallet.changeAmt r
  /\ 0 <= Wallet.changeAmt r
  /\ (forall init last, Wallet.changeInputs r = init ++ [last] ->
        sumAmounts init < amt).
Proof.
  unfold Wallet.spendUTXOs.
  destruct (Z.ltb_spec (Wallet.balance w) amt) as [Hlt|Hge];
    [intros Hr; discriminate Hr|].
  destruct (Wallet.spendLoop (addresses w) (coins w) amt [])
    as [[[needed rest]|e] q] eqn:Hloop; intros [= <- <-].
  destruct (spendLoop_result _ _ _ _ _ _ _ Hloop)
    as (taken & -> & Hsig & -> & -> & Hstop & Hmin).
  cbv zeta. cbn [Wallet.changeInputs Wallet.changeAmt coins set_coins app].
  split; [exact Hsig|]. split; [reflexivity|]. split; [lia|].
  split; [|exact Hmin].
  destruct Hstop as [Hcov|Hall]; [lia|].
  rewrite Hall, firstn_all in Hsig. apply signedBy_sum in Hsig.
  rewrite balance_sumAmounts in Hge. lia.
Qed.

Lemma spendLoop_returns (addrs : gmap string KeyPair) (queue : list Coin) :
  Forall (fun c => exists kp s,
            addrs !! address (output c) = Some kp
            /\ utils_sign (private kp) (output c) = Ok s) queue ->
  forall amt needed,
    exists r q, Wallet.spendLoop addrs queue amt needed = (Ok r, q).
Proof.
  induction 1 as [|c queue (kp & s & Hkp & Hs) _ IH]; intros amt needed; cbn.
  - eauto.
  - destruct (0 <? amt); [|eauto].
    unfold Wallet.signCoin. rewrite (readSlot_own _ _ _ Hkp), Hs.
    destruct (IH (amt - amount (output (set_sig s (set_pubKey (public kp) c))))
                (needed ++ [set_sig s (set_pubKey (public kp) c)]))
      as (r & q & ->).
    eauto.
Qed.

Lemma spendFullyLoop_returns (addrs : gmap string KeyPair)
    (valid : list string) (queue : list Coin) :
  Forall (fun c => exists kp s,
            addrs !! address (output c) = Some kp
            /\ utils_sign (private kp) (output c) = Ok s) queue ->
  forall amt needed,
    exists r q,
      Wallet.spendFullyLoop addrs valid queue amt needed = (Ok r, q).
Proof.
  induction 1 as [|c queue (kp & s & Hkp & Hs) _ IH]; intros amt needed; cbn.
  - eauto.
  - destruct (0 <? amt); [|eauto].
    destruct (-1 <? Wallet.indexOf valid (address (output c))).
    + unfold Wallet.signCoin. rewrite (readSlot_own _ _ _ Hkp), Hs.
      destruct (IH (amt - amount (output (set_sig s (set_pubKey (public kp) c))))
                  (needed ++ [set_sig s (set_pubKey (public kp) c)]))
        as (r & q & ->).
      eauto.
    + destruct (IH amt needed) as (r & q & ->). eauto.
Qed.

(** X11. Both spends return whenever the amount asked does not exceed the
    local balance and every coin of the queue can be signed (its address
    has a key pair and the signing returns). *)
Theorem spend_returns (amt : Z) (miner : Miner) (w : Wallet) :
  amt <= Wallet.balance w ->
  signable w ->
  (exists r w', Wallet.spendUTXOs amt w = (Ok r, w'))
  /\ (exists r w', Wallet.spendUTXOsFully amt miner w = (Ok r, w')).
Proof.
  intros Hamt Hsign. unfold Wallet.spendUTXOs, Wallet.spendUTXOsFully.
  destruct (Z.ltb_spec (Wallet.balance w) amt) as [Hlt|_]; [lia|]. split.
  - destruct (spendLoop_returns (addresses w) (coins w) Hsign amt [])
      as ([needed rest] & q & ->). eauto.
  - cbv zeta.
    destruct (spendFullyLoop_returns (addresses w)
                (map address
                   (getAllAgedUTXOsBelongingTo (currentBlock miner) w))
                (coins w) Hsign amt [])
      as ([needed rest] & q & ->). eauto.
Qed.

(** What the loop of [spendUTXOsFully] returns: the coins it takes are
    those with a valid address among the first [n] of the queue. *)
Lemma spendFullyLoop_selection (addrs : gmap string KeyPair)
    (valid : list string) (queue : list Coin) :
  forall amt needed needed' rest q,
    Wallet.spendFullyLoop addrs valid queue amt needed
      = (Ok (needed', rest), q) ->
    exists n taken,
      needed' = needed ++ taken
      /\ Forall2 (signedBy addrs)
           (List.filter (hasValidAddress valid) (take n queue)) taken
      /\ rest = amt - sumAmounts taken
      /\ (rest <= 0 \/ n = length queue)
      /\ (forall init last, taken = init ++ [last] ->
            sumAmounts init < amt).
Proof.
  induction queue as [|c queue IH]; intros amt needed needed' rest q; cbn.
  - intros [= <- <- <-]. exists 0%nat, []. rewrite app_nil_r.
    split; [reflexivity|]. split; [constructor|].
    change (sumAmounts []) with 0. split; [lia|].
    split; [right; reflexivity|].
    intros [|? ?] ? Habs; discriminate Habs.
  - destruct (Z.ltb_spec 0 amt) as [Hpos|Hcov].
    + destruct (-1 <? Wallet.indexOf valid (address (output c))) eqn:Hvalid.
      * destruct (Wallet.signCoin addrs c) as [[c'|e] c2] eqn:Hsign;
          [|intros Hr; discriminate Hr].
        apply signCoin_signedBy in Hsign as [Hsigned ->].
        destruct (Wallet.spendFullyLoop addrs valid queue
                    (amt - amount (output c')) (needed ++ [c']))
          as [r q'] eqn:Hloop.
        intros [= -> <-].
        destruct (IH _ _ _ _ _ Hloop)
          as (n & taken & -> & Hsig & -> & Hstop & Hmin).
        exists (S n), (c' :: taken). rewrite <- app_assoc.
        cbn [firstn List.filter app length]. unfold hasValidAddress at 1.
        rewrite Hvalid.
        split; [reflexivity|]. split; [constructor; assumption|].
        change (sumAmounts (c' :: taken))
          with (amount (output c') + sumAmounts taken).
        split; [lia|]. split; [destruct Hstop; [left; lia | right; lia]|].
        intros init last Hsplit. destruct init as [|d init]; cbn in Hsplit.
        -- change (sumAmounts []) with 0. lia.
        -- injection Hsplit as <- Hsplit.
           specialize (Hmin init last Hsplit).
           change (sumAmounts (c' :: init))
             with (amount (output c') + sumAmounts init). lia.
      * destruct (Wallet.spendFullyLoop addrs valid queue amt needed)
          as [r q'] eqn:Hloop.
        intros [= -> <-].
        destruct (IH _ _ _ _ _ Hloop)
          as (n & taken & -> & Hsig & -> & Hstop & Hmin).
        exists (S n), taken.
        cbn [firstn List.filter length]. unfold hasValidAddress at 1.
        rewrite Hvalid.
        split; [reflexivity|]. split; [exact Hsig|]. split; [reflexivity|].
        split; [destruct Hstop; [left; lia | right; lia] | exact Hmin].
    + intros [= <- <- <-]. exists 0%nat, []. rewrite app_nil_r.
      split; [reflexivity|]. split; [constructor|].
      change (sumAmounts []) with 0. split; [lia|]. split; [left; lia|].
      intros [|? ?] ? Habs; discriminate Habs.
Qed.

(** X12. When [spendUTXOsFully] returns, its inputs are, in the order of the
    queue and signed, the coins with an aged address among the first [n]
    coins of the queue. Either they cover the amount asked, or the whole
    queue was gone through: then every coin with an aged address is an
    input and the total stays below the amount. No input is taken once the
    amount is covered. *)
Theorem spendUTXOsFully_covers (amt : Z) (miner : Miner) (w w' : Wallet)
    (r : Wallet.Spent) :
  Wallet.spendUTXOsFully amt miner w = (Ok r, w') ->
  let valid :=
    map address (getAllAgedUTXOsBelongingTo (currentBlock miner) w) in
  exists n,
    Forall2 (signedBy (addresses w))
      (List.filter (hasValidAddress valid) (take n (coins w)))
      (Wallet.inputs r)
    /\ (amt <= Wallet.totalSpent r \/ n = length (coins w))
    /\ (forall init last, Wallet.inputs r = init ++ [last] ->
          sumAmounts init < amt).
Proof.
  unfold Wallet.spendUTXOsFully.
  destruct (Z.ltb_spec (Wallet.balance w) amt) as [Hlt|Hge];
    [intros Hr; discriminate Hr|].
  cbv zeta.
  destruct (Wallet.spendFullyLoop _ _ _ _ _) as [[[needed rest]|e] q] eqn:Hloop;
    intros [= <- <-].
  destruct (spendFullyLoop_selection _ _ _ _ _ _ _ _ Hloop)
    as (n & taken & -> & Hsig & -> & Hstop & Hmin).
  exists n. cbn [Wallet.inputs Wallet.totalSpent app].
  split; [exact Hsig|]. split; [|exact Hmin].
  destruct Hstop as [Hcov|Hall]; [left; lia | right; exact Hall].
Qed.

End Spend.

Lemma spendUTXOs_change_witness :
  sumAmounts [Sample.tomSigned] = 30 + 20
  /\ 0 <= 20
  /\ (forall init last, [Sample.tomSigned] = init ++ [last] ->
        sumAmounts init < 30).
Proof.
  destruct (spendUTXOs_change (collab := Sample.collaborators) 30
              Sample.tomWallet Sample.tomWalletSigned
              (Wallet.mkChange [Sample.tomSigned] 20) eq_refl)
    as (_ & _ & Hsum & Hchange & Hmin).
  split; [exact Hsum|]. split; [exact Hchange | exact Hmin].
Defined.

Lemma spend_returns_witness :
  (exists r w',
     Wallet.spendUTXOs (collab := Sample.collaborators) 50 Sample.tomWallet
     = (Ok r, w'))
  /\ (exists r w',
        Wallet.spendUTXOsFully (collab := Sample.collaborators) 50 Sample.tom
          Sample.tomWallet = (Ok r, w')).
Proof.
  apply (spend_returns (collab := Sample.collaborators) 50 Sample.tom
           Sample.tomWallet).
  - vm_compute. discriminate.
  - constructor; [|constructor].
    exists Sample.tomKeys, "sig:tom-secret". split; reflexivity.
Defined.

Lemma spendUTXOsFully_covers_witness :
  exists n,
    Forall2 (signedBy (collab := Sample.collaborators)
               (addresses Sample.tomWallet))
      (List.filter
         (hasValidAddress
            (map address
               (getAllAgedUTXOsBelongingTo
                  (Collaborators := Sample.collaborators)
                  (currentBlock Sample.tom) Sample.tomWallet)))
         (take n (coins Sample.tomWallet)))
      [Sample.tomSigned]
    /\ (30 <= 50 \/ n = length (coins Sample.tomWallet))
    /\ (forall init last, [Sample.tomSigned] = init ++ [last] ->
          sumAmounts init < 30).
Proof.
  exact (spendUTXOsFully_covers (collab := Sample.collaborators) 30
           Sample.tom Sample.tomWallet Sample.tomWalletSigned
           (Wallet.mkSpent [Sample.tomSigned] 50) eq_refl).
Defined.

(** ** The wallet: balances and keys *)

Section Balances.
Context {collab : Collaborators}.

Lemma sumAmounts_ids (l l' : list Coin) :
  map coinId l = map coinId l' -> sumAmounts l = sumAmounts l'.
Proof.
  revert l'. induction l as [|c l IH]; intros [|c' l'] Hids;
    try discriminate Hids; [reflexivity|].
  cbn [map] in Hids.
  assert (Hrest : map coinId l = map coinId l') by congruence.
  assert (Hout : output c = output c')
    by (unfold coinId in Hids; congruence).
  change (amount (output c) + sumAmounts l
          = amount (output c') + sumAmounts l').
  rewrite (IH l' Hrest), Hout. reflexivity.
Qed.

(** X13. Of the calls that assign to the wallet only an [addUTXO] that
    finds the key changes the local balance, and it adds the amount of the
    output: no spend lowers it, whether it returns or throws. *)
Theorem afterCall_balance (c : WalletCall) (w : Wallet) :
  Wallet.balance (afterCall c w)
  = match c with
    | CallAddUTXO utxo _ _ =>
        if Wallet.hasKey w (address utxo)
        then Wallet.balance w + amount utxo
        else Wallet.balance w
    | _ => Wallet.balance w
    end.
Proof.
  rewrite !balance_sumAmounts.
  destruct c as [utxo tx idx|amt|amt miner|kp|block|block|];
    cbn [afterCall]; try reflexivity.
  - destruct (addUTXO_cases utxo tx idx w) as [[-> ->]|[-> ->]];
      [|reflexivity].
    cbn [snd coins set_coins].
    change (sumAmounts (mkCoin utxo tx idx None None :: coins w))
      with (amount utxo + sumAmounts (coins w)). lia.
  - apply sumAmounts_ids. apply spendUTXOs_queue.
  - apply sumAmounts_ids. apply spendUTXOsFully_queue.
Qed.

Lemma balanceOnChain_keys (w w' : Wallet) (miner : Miner) :
  (forall a, Wallet.hasKey w' a = Wallet.hasKey w a) ->
  Wallet.balanceOnChain w' miner = Wallet.balanceOnChain w miner.
Proof.
  intros Hkeys. unfold Wallet.balanceOnChain. cbv zeta.
  generalize (map_to_list (utxos (currentBlock miner))) 0.
  induction l as [|[tx us] l IH]; intros total; cbn; [reflexivity|].
  rewrite IH. f_equal. clear IH. revert total.
  induction us as [|u us IHus]; intros total; cbn; [reflexivity|].
  rewrite Hkeys. apply IHus.
Qed.

Lemma hasKey_addresses (w w' : Wallet) :
  addresses w' = addresses w ->
  forall a, Wallet.hasKey w' a = Wallet.hasKey w a.
Proof. intros Haddr a. unfold Wallet.hasKey. rewrite Haddr. reflexivity. Qed.

Lemma hasKey_removePrivateKeys (w : Wallet) (a : string) :
  Wallet.hasKey (snd (Wallet.removePrivateKeys w)) a = Wallet.hasKey w a.
Proof.
  unfold Wallet.hasKey, Wallet.removePrivateKeys.
  cbn [snd addresses set_addresses].
  apply truthy_readSlot_keys. intros k. rewrite lookup_fmap.
  apply fmap_is_Some.
Qed.

Lemma addUTXO_addresses (utxo : UTXO) (tx : string) (index : Z) (w : Wallet) :
  addresses (snd (Wallet.addUTXO utxo tx index w)) = addresses w.
Proof.
  destruct (addUTXO_cases utxo tx index w) as [[_ ->]|[_ ->]]; reflexivity.
Qed.

(** X14. The balance on the chain depends on the wallet only through the
    addresses at which [hasKey] answers true: it is 0 when that is none of
    the addresses the block lists; for a new wallet these addresses are the
    names of [Object.prototype]; and no call other than [makeAddress]
    changes it, neither adding a coin, spending, saving the fingerprint nor
    removing the private keys. *)
Theorem balanceOnChain_frame (miner : Miner) :
  (forall w,
     (forall tx us u,
        utxos (currentBlock miner) !! tx = Some us -> u ∈ us ->
        Wallet.hasKey w (address u) = false) ->
     Wallet.balanceOnChain w miner = 0)
  /\ (forall a, Wallet.hasKey Wallet.new a = true
                <-> a ∈ objectPrototypeNames)
  /\ (forall w w',
        (forall a, Wallet.hasKey w' a = Wallet.hasKey w a) ->
        Wallet.balanceOnChain w' miner = Wallet.balanceOnChain w miner)
  /\ (forall c w,
        (forall kp, c <> CallMakeAddress kp) ->
        Wallet.balanceOnChain (afterCall c w) miner
        = Wallet.balanceOnChain w miner).
Proof.
  split; [|split; [|split]].
  - intros w Hnone. unfold Wallet.balanceOnChain. cbv zeta.
    assert (Hlisted : forall tx us,
              (tx, us) ∈ map_to_list (utxos (currentBlock miner)) ->
              forall u, u ∈ us -> Wallet.hasKey w (address u) = false).
    { intros tx us Hin u Hu. apply elem_of_map_to_list in Hin.
      exact (Hnone tx us u Hin Hu). }
    revert Hlisted.
    generalize (map_to_list (utxos (currentBlock miner))).
    assert (Hin : forall us total,
              (forall u, u ∈ us -> Wallet.hasKey w (address u) = false) ->
              fold_left
                (fun total utxo =>
                   if Wallet.hasKey w (address utxo)
                      && (chainNum utxo <? chainLength (currentBlock miner))
                   then total + amount utxo else total) us total = total).
    { induction us as [|u us IH]; intros total Hus; cbn; [reflexivity|].
      rewrite (Hus u) by apply list_elem_of_here. cbn.
      apply IH. intros u' Hu'. apply Hus, list_elem_of_further, Hu'. }
    induction l as [|[tx us] l IH]; intros Hl; cbn; [reflexivity|].
    rewrite Hin by (apply (Hl tx us), list_elem_of_here).
    apply IH. intros tx' us' Hin'. apply (Hl tx' us').
    apply list_elem_of_further, Hin'.
  - intros a. rewrite hasKey_true. cbn. rewrite lookup_empty. split.
    + intros [[kp Hkp]|Hin]; [discriminate Hkp | exact Hin].
    + auto.
  - intros w w'. apply balanceOnChain_keys.
  - intros c w Hc. apply balanceOnChain_keys.
    destruct c as [utxo tx idx|amt|amt m|kp|block|block|]; cbn.
    + apply hasKey_addresses. apply addUTXO_addresses.
    + apply hasKey_addresses. apply spendUTXOs_queue.
    + apply hasKey_addresses. apply spendUTXOsFully_queue.
    + destruct (Hc kp eq_refl).
    + apply hasKey_addresses. reflexivity.
    + apply hasKey_addresses. reflexivity.
    + apply hasKey_removePrivateKeys.
Qed.

(** X15. An address made by [makeAddress] can receive at once: the wallet
    has its key, [addUTXO] of an output to it returns and puts the coin at
    the front of the queue, and the keys the wallet had are still there. *)
Theorem makeAddress_addUTXO (kp : KeyPair) (w : Wallet) :
  let addr := utils_calcAddress (public kp) in
  let w1 := snd (Wallet.makeAddress kp w) in
  fst (Wallet.makeAddress kp w) = Ok addr
  /\ addresses w1 !! addr = Some kp
  /\ Wallet.hasKey w1 addr = true
  /\ (forall a, Wallet.hasKey w a = true -> Wallet.hasKey w1 a = true)
  /\ coins w1 = coins w
  /\ (forall utxo txID outputIndex,
        address utxo = addr ->
        exists w2,
          Wallet.addUTXO utxo txID outputIndex w1 = (Ok tt, w2)
          /\ coins w2 = mkCoin utxo txID outputIndex None None :: coins w
          /\ Wallet.balance w2 = Wallet.balance w + amount utxo).
Proof.
  intros addr w1. subst w1. unfold Wallet.makeAddress. cbn [fst snd].
  fold addr.
  set (w1 := set_addresses (insert addr kp) w).
  assert (Hkp : addresses w1 !! addr = Some kp) by apply lookup_insert_eq.
  assert (Hhas : Wallet.hasKey w1 addr = true)
    by (apply hasKey_true; left; rewrite Hkp; eauto).
  split; [reflexivity|]. split; [exact Hkp|]. split; [exact Hhas|].
  split; [|split; [reflexivity|]].
  - intros a. rewrite !hasKey_true. intros [Ha|Ha]; [left|right; exact Ha].
    subst w1. cbn [addresses set_addresses].
    apply lookup_insert_is_Some'. right. exact Ha.
  - intros utxo tx idx Haddr.
    destruct (addUTXO_cases utxo tx idx w1) as [[_ Hadd]|[Hno _]];
      [|rewrite Haddr in Hno; congruence].
    eexists. split; [exact Hadd|]. split; [reflexivity|].
    rewrite !balance_sumAmounts. cbn [coins set_coins set_addresses w1].
    change (sumAmounts (mkCoin utxo tx idx None None :: coins w))
      with (amount utxo + sumAmounts (coins w)). lia.
Qed.

(** X16. [removePrivateKeys] leaves no private key in the wallet and keeps
    everything else: the addresses with their public keys, the coins and
    the fingerprint. Running it twice is running it once. *)
Theorem removePrivateKeys_keeps (w : Wallet) :
  let w' := snd (Wallet.removePrivateKeys w) in
  (forall a kp, addresses w' !! a = Some kp -> private kp = None)
  /\ (forall a, public <$> (addresses w' !! a) = public <$> (addresses w !! a))
  /\ (forall a, Wallet.hasKey w' a = Wallet.hasKey w a)
  /\ coins w' = coins w
  /\ eligibility_address w' = eligibility_address w
  /\ snd (Wallet.removePrivateKeys w') = w'.
Proof.
  intros w'. subst w'.
  split; [|split; [|split; [|split; [|split]]]]; try reflexivity;
    try (intros a; apply hasKey_removePrivateKeys);
    unfold Wallet.removePrivateKeys;
    cbn [snd addresses coins eligibility_address set_addresses].
  - intros a kp. rewrite lookup_fmap.
    destruct (addresses w !! a); cbn; intros [= <-]; reflexivity.
  - intros a. rewrite lookup_fmap. destruct (addresses w !! a); reflexivity.
  - unfold set_addresses. cbn. f_equal. apply map_eq. intros a.
    rewrite !lookup_fmap. destruct (addresses w !! a); reflexivity.
Qed.

(** X20. [addUTXO] throws the missing-key error exactly when the address
    map reads [undefined] at the address of the output: the wallet has no
    key pair for it, and it is not a name of [Object.prototype]. The wallet
    is then as it was; in every other case the coin is put at the front of
    the queue. So after any sequence of calls on a new wallet every coin of
    the queue has an address that is a key of the wallet or one of these
    names. *)
Theorem addUTXO_rejects :
  (forall (w : Wallet) (utxo : UTXO) (txID : string) (outputIndex : Z),
     ((addresses w !! address utxo = None
       /\ (address utxo ∉ objectPrototypeNames))
      <-> exists e, fst (Wallet.addUTXO utxo txID outputIndex w) = Throw e)
     /\ (addresses w !! address utxo = None ->
         address utxo ∉ objectPrototypeNames ->
         Wallet.addUTXO utxo txID outputIndex w
         = (Throw (MissingKeyError (address utxo)), w))
     /\ (is_Some (addresses w !! address utxo)
         \/ address utxo ∈ objectPrototypeNames ->
         Wallet.addUTXO utxo txID outputIndex w
         = (Ok tt,
            set_coins (cons (mkCoin utxo txID outputIndex None None)) w)))
  /\ (forall cs : list WalletCall, coinsAccepted (afterCalls cs)).
Proof.
  split.
  - intros w utxo tx idx.
    assert (Hno : Wallet.hasKey w (address utxo) = false
                  <-> addresses w !! address utxo = None
                      /\ (address utxo ∉ objectPrototypeNames)).
    { rewrite <- not_true_iff_false, hasKey_true. split.
      - intros Hnot. split.
        + destruct (addresses w !! address utxo) eqn:Hkp; [|reflexivity].
          destruct Hnot. left. eauto.
        + intros Hin. apply Hnot. right. exact Hin.
      - intros [Hn Hk] [[kp Hkp]|Hin]; [congruence | contradiction]. }
    destruct (addUTXO_cases utxo tx idx w) as [[Hkey Hadd]|[Hkey Hadd]];
      rewrite Hadd; cbn [fst].
    + split; [|split].
      * split; [|intros (e & He); discriminate He].
        intros Habs. apply Hno in Habs. congruence.
      * intros Hn Hk. assert (Habs : Wallet.hasKey w (address utxo) = false)
          by (apply Hno; auto). congruence.
      * intros _. reflexivity.
    + split; [|split].
      * split; [eauto | intros _; apply Hno, Hkey].
      * intros _ _. reflexivity.
      * intros Hsome. apply hasKey_true in Hsome. congruence.
  - intros cs. unfold afterCalls.
    assert (Hgen : forall w, coinsAccepted w ->
              coinsAccepted (fold_left (fun w c => afterCall c w) cs w)).
    { induction cs as [|c cs IH]; intros w Hw; cbn; [exact Hw|].
      apply IH, afterCall_coinsAccepted, Hw. }
    apply Hgen. constructor.
Qed.

End Balances.

(** ** The wallet: newest coin first, fingerprint, the two coin ages *)

Section Revisions.
Context {collab : Collaborators}.

(** X17. The queue is spent from its front, where [addUTXO] puts the coins:
    after an output is added, a spend of a positive amount that the output
    covers takes that coin alone, and the change is what the output holds
    beyond the amount. *)
Theorem addUTXO_spent_first (utxo : UTXO) (tx : string) (index : Z)
    (amt : Z) (w : Wallet) (kp : KeyPair) (s : string) :
  addresses w !! address utxo = Some kp ->
  utils_sign (private kp) utxo = Ok s ->
  0 <= Wallet.balance w ->
  0 < amt <= amount utxo ->
  let w1 := snd (Wallet.addUTXO utxo tx index w) in
  let signed := mkCoin utxo tx index (Some (public kp)) (Some s) in
  Wallet.spendUTXOs amt w1
  = (Ok (Wallet.mkChange [signed] (amount utxo - amt)),
     set_coins (fun _ => signed :: coins w) w1).
Proof.
  intros Hkp Hs Hbal Hamt w1 signed. subst w1. unfold Wallet.addUTXO.
  rewrite (readSlot_own _ _ _ Hkp). cbn [snd]. unfold Wallet.spendUTXOs.
  set (w1 := set_coins (cons (mkCoin utxo tx index None None)) w).
  assert (Hb : Wallet.balance w1 = Wallet.balance w + amount utxo).
  { rewrite !balance_sumAmounts. subst w1. cbn [coins set_coins].
    change (sumAmounts (mkCoin utxo tx index None None :: coins w))
      with (amount utxo + sumAmounts (coins w)). lia. }
  destruct (Z.ltb_spec (Wallet.balance w1) amt) as [Hlt|_]; [lia|].
  subst w1. cbn [coins set_coins addresses Wallet.spendLoop].
  destruct (Z.ltb_spec 0 amt) as [_|Hle]; [|lia].
  unfold Wallet.signCoin. cbn [output]. rewrite (readSlot_own _ _ _ Hkp), Hs.
  cbn [output set_sig set_pubKey amount txID outputIndex pubKey sig_].
  fold signed.
  destruct (coins w) as [|c rest].
  - cbn [Wallet.spendLoop app]. repeat f_equal. lia.
  - cbn [Wallet.spendLoop app].
    destruct (Z.ltb_spec 0 (amt - amount utxo)) as [Hpos|_]; [lia|].
    repeat f_equal. lia.
Qed.

Lemma append_assoc (x y z : string) : (x +:+ y) +:+ z = x +:+ (y +:+ z).
Proof.
  induction x as [|c x IH]; [reflexivity|].
  change (String c ((x +:+ y) +:+ z) = String c (x +:+ (y +:+ z))).
  f_equal. exact IH.
Qed.

Lemma total_add_join (l : list UTXO) (acc : string) :
  fold_left (fun acc utxo => acc +:+ address utxo) l acc
  = acc +:+ joinAddresses l.
Proof.
  revert acc. induction l as [|u l IH]; intros acc; cbn.
  - induction acc as [|c acc IHacc]; [reflexivity|].
    change (String c acc = String c (acc +:+ "")). f_equal. exact IHacc.
  - rewrite IH. apply append_assoc.
Qed.

(** X18. [saveEligibilityProof] gives the wallet a fingerprint and changes
    nothing else. The text it is made of is never empty: the addresses of
    the outputs the block lists for the wallet, joined with no separator,
    or ["12345"] when there is none. The newer revision stores the hash of
    that text, [source/wallet.js] the text itself. Two lists of outputs
    whose addresses join to the same text give the same fingerprint. *)
Theorem saveEligibilityProof_fingerprint (block : Block) (w : Wallet) :
  let text := fingerprintText (getAllUTXOsBelongingTo block w) in
  text <> ""
  /\ (getAllUTXOsBelongingTo block w = [] -> text = "12345")
  /\ Wallet.saveEligibilityProof block w
     = (Ok tt, set_eligibility_address (Some (utils_hash text)) w)
  /\ WalletSource.saveEligibilityProof block w
     = (Ok tt, set_eligibility_address (Some text) w)
  /\ (forall l l', joinAddresses l = joinAddresses l' ->
        fingerprintText l = fingerprintText l').
Proof.
  intros text. subst text. unfold fingerprintText.
  split; [|split; [|split; [|split]]].
  - destruct (String.eqb_spec
                (joinAddresses (getAllUTXOsBelongingTo block w)) "");
      [discriminate | assumption].
  - intros ->. reflexivity.
  - unfold Wallet.saveEligibilityProof. cbv zeta.
    rewrite total_add_join. reflexivity.
  - unfold WalletSource.saveEligibilityProof. cbv zeta.
    rewrite total_add_join. reflexivity.
  - intros l l' ->. reflexivity.
Qed.

Lemma coinAgeSource_total (block : Block) (l : list UTXO) :
  forall total : Q,
    (fold_left
       (fun total utxo => total + WalletSource.coinAgeOf utxo block) l total
     == total + foldr (fun utxo acc => ageContributionSource block utxo + acc)
                  0 l)%Q.
Proof.
  induction l as [|u l IH]; intros total; cbn [fold_left foldr].
  - ring.
  - rewrite IH.
    assert (Hu : (WalletSource.coinAgeOf u block
                  == ageContributionSource block u)%Q).
    { unfold WalletSource.coinAgeOf, ageContributionSource.
      apply Qmult_comp; [|reflexivity].
      unfold Qeq, Qdiv, Qmult, Qinv, inject_Z. cbn. lia. }
    rewrite Hu. ring.
Qed.

Lemma ageContribution_le_source (block : Block) (u : UTXO) :
  0 <= amount u -> chainNum u < chainLength block ->
  (ageContribution block u <= ageContributionSource block u)%Q.
Proof.
  intros Hamt Hage. unfold ageContribution, ageContributionSource.
  apply Q.max_lub.
  - unfold Qle, Qmult, inject_Z. cbn. nia.
  - unfold Qle, Qmult, inject_Z. cbn. nia.
Qed.

Lemma getCoinAgeOfWalletOnChain_bounds (w : Wallet) (block : Block) :
  Wallet.getCoinAgeOfWalletOnChain w block
  = Z.min 4 (Qfloor (ageAggregate block (getAllAgedUTXOsBelongingTo block w)))
  /\ 0 <= Qfloor (ageAggregate block (getAllAgedUTXOsBelongingTo block w)).
Proof.
  unfold Wallet.getCoinAgeOfWalletOnChain. cbv zeta. split.
  - f_equal. apply Qfloor_comp. rewrite coinAge_total. ring.
  - pose proof (Qfloor_resp_le _ _
                  (ageAggregate_nonneg block
                     (getAllAgedUTXOsBelongingTo block w))) as Hpos.
    exact Hpos.
Qed.

(** X19. The coin age of [source/wallet.js] is the plain sum of
    [amount/1000 * (chainLength - chainNum - 1)] over the aged outputs,
    neither floored nor clamped. When the aged outputs have amounts of 0 or
    more and were created below the chain length of the block, it is not
    negative, and the coin age of the newer revision never exceeds its
    floor clamped to 4 (the value the miner prints). *)
Theorem getCoinAgeOfWalletOnChain_revisions (w : Wallet) (miner : Miner) :
  let aged := getAllAgedUTXOsBelongingTo (currentBlock miner) w in
  let old := WalletSource.getCoinAgeOfWalletOnChain w miner in
  Forall (fun u => 0 <= amount u /\ chainNum u < chainLength (currentBlock miner))
    aged ->
  (old == foldr (fun utxo acc =>
                   ageContributionSource (currentBlock miner) utxo + acc)
            0 aged)%Q
  /\ (0 <= old)%Q
  /\ Wallet.getCoinAgeOfWalletOnChain w (currentBlock miner)
     <= Z.min 4 (Qfloor old).
Proof.
  intros aged old Haged.
  assert (Hold : (old == foldr (fun utxo acc =>
                     ageContributionSource (currentBlock miner) utxo + acc)
                   0 aged)%Q).
  { subst old. unfold WalletSource.getCoinAgeOfWalletOnChain. cbv zeta.
    fold aged. rewrite coinAgeSource_total. ring. }
  assert (Hle : (ageAggregate (currentBlock miner) aged
                 <= foldr (fun utxo acc =>
                      ageContributionSource (currentBlock miner) utxo + acc)
                    0 aged)%Q).
  { clear Hold. induction Haged as [|u l [Hamt Hage] _ IH];
      cbn [ageAggregate foldr]; [apply Qle_refl|].
    apply Qplus_le_compat;
      [apply ageContribution_le_source; assumption | exact IH]. }
  split; [exact Hold|]. split.
  - rewrite Hold. eapply Qle_trans; [|exact Hle].
    apply ageAggregate_nonneg.
  - destruct (getCoinAgeOfWalletOnChain_bounds w (currentBlock miner))
      as [Hnew _].
    rewrite Hnew. fold aged.
    assert (Hfloor : Qfloor (ageAggregate (currentBlock miner) aged)
                     <= Qfloor old).
    { apply Qfloor_resp_le. rewrite Hold. exact Hle. }
    lia.
Qed.

End Revisions.

Lemma addUTXO_spent_first_witness :
  Wallet.spendUTXOs (collab := Sample.collaborators) 25
    (snd (Wallet.addUTXO (mkUTXO "addr:tom" 40 1) "tx9" 0 Sample.tomWallet))
  = (Ok (Wallet.mkChange
           [mkCoin (mkUTXO "addr:tom" 40 1) "tx9" 0 (Some "tom")
              (Some "sig:tom-secret")]
           (40 - 25)),
     set_coins
       (fun _ =>
          mkCoin (mkUTXO "addr:tom" 40 1) "tx9" 0 (Some "tom")
            (Some "sig:tom-secret") :: coins Sample.tomWallet)
       (snd (Wallet.addUTXO (mkUTXO "addr:tom" 40 1) "tx9" 0
               Sample.tomWallet))).
Proof.
  apply (addUTXO_spent_first (collab := Sample.collaborators)
           (mkUTXO "addr:tom" 40 1) "tx9" 0 25 Sample.tomWallet
           Sample.tomKeys "sig:tom-secret" eq_refl eq_refl).
  - vm_compute. discriminate.
  - cbn. lia.
Defined.

Lemma getCoinAgeOfWalletOnChain_revisions_witness :
  (0 <= WalletSource.getCoinAgeOfWalletOnChain
          (collab := Sample.collaborators) Sample.samWallet Sample.sam)%Q
  /\ Wallet.getCoinAgeOfWalletOnChain (collab := Sample.collaborators)
       Sample.samWallet (currentBlock Sample.sam)
     <= Z.min 4
          (Qfloor (WalletSource.getCoinAgeOfWalletOnChain
                     (collab := Sample.collaborators) Sample.samWallet
                     Sample.sam)).
Proof.
  refine (proj2 (getCoinAgeOfWalletOnChain_revisions
                   (collab := Sample.collaborators) Sample.samWallet
                   Sample.sam _)).
  vm_compute. constructor; [|constructor].
  split; [discriminate | reflexivity].
Defined.
